(** * faiss/utils/simdlib_emulated.h: the scalar emulation of 256-bit SIMD registers

    A shallow embedding of the emulated register types and of the operations
    on them, followed by the properties of these operations.

    Conventions of the embedding.
    - A register is the [u8] member of the union: the list of its 32 bytes.
      The other members are views of the same bytes, read and written in
      little-endian order (the header emulates AVX2, an x86 instruction set).
    - Unsigned values are integers in [Z]; every conversion the C++ code
      performs to a narrower or unsigned type is written out ([to_u8],
      [to_u16], [to_u32], [to_i32]).
    - A [for] loop over [0 .. n-1] is a left fold over [seq 0 n].
    - A default-constructed register ([simd256bit() {}]) holds indeterminate
      bytes: it is the section variable [indeterminate]. *)

From Stdlib Require Import ZArith Lia ZifyNat List String Ascii Bool.
From stdpp Require Import base numbers list.

Local Open Scope Z_scope.

Module faiss.

(** ** Integer types *)

Definition to_u8 (z : Z) : Z := z mod 2 ^ 8.
Definition to_u16 (z : Z) : Z := z mod 2 ^ 16.
Definition to_u32 (z : Z) : Z := z mod 2 ^ 32.
(** conversion to [int] (two's complement) *)
Definition to_i32 (z : Z) : Z := (z + 2 ^ 31) mod 2 ^ 32 - 2 ^ 31.

(** [x << n] on [int] operands, for [x >= 0]: when [x * 2^n] fits the
    unsigned type, the result is that value converted to [int]
    ([3 << 30] and [1 << 31] are negative). *)
Definition int_shl (x : Z) (n : nat) : Z := to_i32 (Z.shiftl x (Z.of_nat n)).

(** [for (int j = 0; j < n; j++) s = body j s] *)
Definition for_loop {S : Type} (n : nat) (body : nat -> S -> S) (s : S) : S :=
  fold_left (fun s j => body j s) (seq 0 n) s.

(** ** struct simd256bit *)

(** [union { uint8_t u8[32]; uint16_t u16[16]; uint32_t u32[8]; float f32[8]; }] *)
Abbreviation simd256bit := (list Z) (only parsing).
Abbreviation simd16uint16 := (list Z) (only parsing).
Abbreviation simd32uint8 := (list Z) (only parsing).
Abbreviation simd8float32 := (list Z) (only parsing).

(** the register holds 32 bytes *)
Definition well_formed (r : simd256bit) : bool :=
  (length r =? 32)%nat && forallb (fun b => (0 <=? b) && (b <? 256)) r.

(** [r.u8[j]]; the code reads no byte beyond the 32 of the register *)
Definition u8 (r : simd256bit) (j : nat) : Z := r !!! j.

(** [r.u8[j] = v] *)
Definition set_u8 (j : nat) (v : Z) (r : simd256bit) : simd256bit := <[j := v]> r.

(** [r.u16[j]] *)
Definition u16 (r : simd256bit) (j : nat) : Z :=
  u8 r (2 * j) + 2 ^ 8 * u8 r (2 * j + 1).

(** [r.u16[j] = v] *)
Definition set_u16 (j : nat) (v : Z) (r : simd256bit) : simd256bit :=
  set_u8 (2 * j + 1) (v / 2 ^ 8) (set_u8 (2 * j) (v mod 2 ^ 8) r).

(** byte [k] of the register when its 16-bit lane holds [v] *)
Definition u16_byte (v : Z) (k : nat) : Z :=
  if Nat.even k then v mod 2 ^ 8 else v / 2 ^ 8.

(** [r.f32[j]], as the 32 bits of its encoding *)
Definition f32 (r : simd256bit) (j : nat) : Z :=
  u8 r (4 * j) + 2 ^ 8 * u8 r (4 * j + 1) + 2 ^ 16 * u8 r (4 * j + 2)
  + 2 ^ 24 * u8 r (4 * j + 3).

(** byte [k] of the register when its 32-bit lane holds [v] *)
Definition f32_byte (v : Z) (k : nat) : Z :=
  match (k mod 4)%nat with
  | 0%nat => v mod 2 ^ 8
  | 1%nat => v / 2 ^ 8 mod 2 ^ 8
  | 2%nat => v / 2 ^ 16 mod 2 ^ 8
  | _ => v / 2 ^ 24
  end.

(** [r.f32[j] = v], [v] given by the 32 bits of its encoding *)
Definition set_f32 (j : nat) (v : Z) (r : simd256bit) : simd256bit :=
  set_u8 (4 * j + 3) (v / 2 ^ 24)
    (set_u8 (4 * j + 2) (v / 2 ^ 16 mod 2 ^ 8)
      (set_u8 (4 * j + 1) (v / 2 ^ 8 mod 2 ^ 8)
        (set_u8 (4 * j) (v mod 2 ^ 8) r))).

(** [simd256bit(const void *x)]: [memcpy(u8, x, 32)] replaces the 32 bytes
    of the register by the first 32 bytes at [x] (the caller provides them) *)
Definition simd256bit_of_ptr (x : list Z) : simd256bit := take 32 x.

(** the bytes of an array of [uint16_t] *)
Definition uint16_bytes (x : list Z) : list Z :=
  flat_map (fun v => [v mod 2 ^ 8; v / 2 ^ 8]) x.

(** [simd16uint16(const uint16_t *x): simd256bit((const void* )x) {}] *)
Definition simd16uint16_of_ptr (x : list Z) : simd16uint16 :=
  simd256bit_of_ptr (uint16_bytes x).

(** [void clear()]: [memset(u8, 0, 32)] *)
Definition clear (r : simd256bit) : simd256bit :=
  for_loop 32 (fun j c => set_u8 j 0 c) r.

(** [std::string(const char * )]: the characters before the first NUL *)
Fixpoint std_string (s : list Z) : string :=
  match s with
  | [] => EmptyString
  | c :: s' => if c =? 0 then EmptyString
               else String (ascii_of_N (Z.to_N c)) (std_string s')
  end.

Section HorizontalAdd.

(** what a default-constructed register holds *)
Variable indeterminate : simd256bit.

(** the addition of two [float], given and returned by the 32 bits of their
    encoding *)
Variable float_add : Z -> Z -> Z.

(** [simd8float32 hadd(simd8float32 a, simd8float32 b)] *)
Definition hadd (a b : simd8float32) : simd8float32 :=
  let c := indeterminate in
  let c := set_f32 0 (float_add (f32 a 0) (f32 a 1)) c in
  let c := set_f32 1 (float_add (f32 a 2) (f32 a 3)) c in
  let c := set_f32 2 (float_add (f32 b 0) (f32 b 1)) c in
  let c := set_f32 3 (float_add (f32 b 2) (f32 b 3)) c in
  let c := set_f32 4 (float_add (f32 a 4) (f32 a 5)) c in
  let c := set_f32 5 (float_add (f32 a 6) (f32 a 7)) c in
  let c := set_f32 6 (float_add (f32 b 4) (f32 b 5)) c in
  let c := set_f32 7 (float_add (f32 b 6) (f32 b 7)) c in
  c.

End HorizontalAdd.

Section Emulation.

(** what a default-constructed register holds *)
Variable indeterminate : simd256bit.

(** whether plain [char] is a signed type (it is on x86) *)
Variable char_is_signed : bool.

(** what an uninitialised [char bits[257]] holds *)
Variable indeterminate_chars : list Z.

(** conversion to [char] *)
Definition to_char (z : Z) : Z :=
  if char_is_signed then (z + 2 ^ 7) mod 2 ^ 8 - 2 ^ 7 else z mod 2 ^ 8.

(** [void bin(char bits[257]) const]: [bytes] is [(char * ) this->u8], each
    character is promoted to [int], [>>] on a negative [int] is the
    arithmetic shift, and ['0'] is 48 *)
Definition bin_bits (this : simd256bit) (bits : list Z) : list Z :=
  let bits :=
    for_loop 256 (fun i bits =>
      <[i := to_char (48 + Z.land (Z.shiftr (to_char (u8 this (i / 8)))
                                            (Z.of_nat (i mod 8))) 1)]> bits)
      bits in
  <[256%nat := to_char 0]> bits.

(** [std::string bin() const] *)
Definition bin (this : simd256bit) : string :=
  std_string (bin_bits this indeterminate_chars).

(** ** struct simd32uint8 *)

(** [static simd32uint8 binary_func(a, b, f)] *)
Definition simd32uint8_binary_func (a b : simd32uint8) (f : Z -> Z -> Z)
  : simd32uint8 :=
  for_loop 32 (fun j c => set_u8 j (f (u8 a j) (u8 b j)) c) indeterminate.

(** [simd32uint8 operator + (simd32uint8 other) const]; the [int] sum is
    converted to the [uint8_t] that the function object returns *)
Definition simd32uint8_add (this other : simd32uint8) : simd32uint8 :=
  simd32uint8_binary_func this other (fun a b => to_u8 (a + b)).

(** [simd32uint8 lookup_2_lanes(simd32uint8 idx) const] *)
Definition lookup_2_lanes (this idx : simd32uint8) : simd32uint8 :=
  for_loop 32 (fun j c =>
    if negb (Z.land (u8 idx j) 128 =? 0) then set_u8 j 0 c
    else
      let i := Z.to_nat (to_u8 (Z.land (u8 idx j) 15)) in
      if (j <? 16)%nat then set_u8 j (u8 this i) c
      else set_u8 j (u8 this (16 + i)) c) indeterminate.

(** [simd32uint8(simd256bit x): simd256bit(x) {}]: the bytes are copied *)
Definition simd32uint8_of_simd256bit (x : simd256bit) : simd32uint8 := x.

(** ** struct simd16uint16 *)

(** [simd16uint16(simd256bit x): simd256bit(x) {}]: the bytes are copied *)
Definition simd16uint16_of_simd256bit (x : simd256bit) : simd16uint16 := x.

(** [void set1(uint16_t x)] *)
Definition simd16uint16_set1 (x : Z) (this : simd16uint16) : simd16uint16 :=
  for_loop 16 (fun i this => set_u16 i x this) this.

(** [simd16uint16(int x) { set1(x); }] *)
Definition simd16uint16_of_int (x : Z) : simd16uint16 :=
  simd16uint16_set1 (to_u16 x) indeterminate.

(** [static simd16uint16 unary_func(a, f)] *)
Definition simd16uint16_unary_func (a : simd16uint16) (f : Z -> Z)
  : simd16uint16 :=
  for_loop 16 (fun j c => set_u16 j (f (u16 a j)) c) indeterminate.

(** [static simd16uint16 binary_func(a, b, f)] *)
Definition simd16uint16_binary_func (a b : simd16uint16) (f : Z -> Z -> Z)
  : simd16uint16 :=
  for_loop 16 (fun j c => set_u16 j (f (u16 a j) (u16 b j)) c) indeterminate.

(** [operator +]: the function object returns the [int] sum as [uint16_t] *)
Definition simd16uint16_add (this other : simd16uint16) : simd16uint16 :=
  simd16uint16_binary_func this other (fun a b => to_u16 (a + b)).

(** [operator -] *)
Definition simd16uint16_sub (this other : simd16uint16) : simd16uint16 :=
  simd16uint16_binary_func this other (fun a b => to_u16 (a - b)).

(** [operator &] *)
Definition simd16uint16_and (this : simd16uint16) (other : simd256bit)
  : simd16uint16 :=
  simd16uint16_binary_func this (simd16uint16_of_simd256bit other)
    (fun a b => to_u16 (Z.land a b)).

(** [operator |] *)
Definition simd16uint16_or (this : simd16uint16) (other : simd256bit)
  : simd16uint16 :=
  simd16uint16_binary_func this (simd16uint16_of_simd256bit other)
    (fun a b => to_u16 (Z.lor a b)).

(** [operator ==], returns binary masks *)
Definition simd16uint16_eq (this : simd16uint16) (other : simd256bit)
  : simd16uint16 :=
  simd16uint16_binary_func this (simd16uint16_of_simd256bit other)
    (fun a b => to_u16 (if a =? b then 65535 else 0)).

(** [operator ~] *)
Definition simd16uint16_not (this : simd16uint16) : simd16uint16 :=
  simd16uint16_unary_func this (fun a => to_u16 (Z.lnot a)).

(** [uint32_t ge_mask(simd16uint16 thresh) const]: [gem |= 3 << (j * 2)]
    converts the [int] on the right to [uint32_t] *)
Definition ge_mask (this thresh : simd16uint16) : Z :=
  for_loop 16 (fun j gem =>
    if u16 this j >=? u16 thresh j
    then Z.lor gem (to_u32 (int_shl 3 (j * 2)))
    else gem) 0.

(** [uint32_t le_mask(simd16uint16 thresh) const] *)
Definition le_mask (this thresh : simd16uint16) : Z := ge_mask thresh this.

(** [uint32_t gt_mask(simd16uint16 thresh) const] *)
Definition gt_mask (this thresh : simd16uint16) : Z :=
  to_u32 (Z.lnot (le_mask this thresh)).

(** [bool all_gt(simd16uint16 thresh) const] *)
Definition all_gt (this thresh : simd16uint16) : bool :=
  le_mask this thresh =? 0.

(** [void accu_min(simd16uint16 incoming)]: the state is the receiver and
    the parameter object; the result is their state when the method returns *)
Definition accu_min (this incoming : simd16uint16)
  : simd16uint16 * simd16uint16 :=
  for_loop 16 (fun j '(this, incoming) =>
    if u16 incoming j <? u16 this j
    then (set_u16 j (u16 incoming j) this, incoming)
    else (this, incoming)) (this, incoming).

(** [void accu_max(simd16uint16 incoming)] *)
Definition accu_max (this incoming : simd16uint16)
  : simd16uint16 * simd16uint16 :=
  for_loop 16 (fun j '(this, incoming) =>
    if u16 incoming j >? u16 this j
    then (set_u16 j (u16 incoming j) this, incoming)
    else (this, incoming)) (this, incoming).

(** [std::min(a, b)] is [(b < a) ? b : a] *)
Definition std_min (a b : Z) : Z := if b <? a then b else a.

(** [std::max(a, b)] is [(a < b) ? b : a] *)
Definition std_max (a b : Z) : Z := if a <? b then b else a.

(** [simd16uint16 min(simd16uint16 av, simd16uint16 bv)] *)
Definition min (av bv : simd16uint16) : simd16uint16 :=
  simd16uint16_binary_func av bv std_min.

(** [simd16uint16 max(simd16uint16 av, simd16uint16 bv)] *)
Definition max (av bv : simd16uint16) : simd16uint16 :=
  simd16uint16_binary_func av bv std_max.

(** [simd16uint16 combine2x2(simd16uint16 a, simd16uint16 b)]: each [int]
    sum is converted to [uint16_t] by the assignment *)
Definition combine2x2 (a b : simd16uint16) : simd16uint16 :=
  for_loop 8 (fun j c =>
    let c := set_u16 j (to_u16 (u16 a j + u16 a (j + 8))) c in
    set_u16 (j + 8) (to_u16 (u16 b j + u16 b (j + 8))) c) indeterminate.

(** [uint32_t cmp_ge32(simd16uint16 d0, simd16uint16 d1, simd16uint16 thr)] *)
Definition cmp_ge32 (d0 d1 thr : simd16uint16) : Z :=
  for_loop 16 (fun j gem =>
    let gem := if u16 d0 j >=? u16 thr j
               then Z.lor gem (to_u32 (int_shl 1 j)) else gem in
    if u16 d1 j >=? u16 thr j
    then Z.lor gem (to_u32 (int_shl 1 (j + 16))) else gem) 0.

(** [uint32_t cmp_le32(simd16uint16 d0, simd16uint16 d1, simd16uint16 thr)] *)
Definition cmp_le32 (d0 d1 thr : simd16uint16) : Z :=
  for_loop 16 (fun j gem =>
    let gem := if u16 d0 j <=? u16 thr j
               then Z.lor gem (to_u32 (int_shl 1 j)) else gem in
    if u16 d1 j <=? u16 thr j
    then Z.lor gem (to_u32 (int_shl 1 (j + 16))) else gem) 0.

(** [simd16uint16 simd32uint8::operator + (simd16uint16 other) const]:
    [other] is passed to [simd32uint8::binary_func] through
    [simd32uint8(simd256bit)], and the result is returned through
    [simd16uint16(simd256bit)] *)
Definition simd32uint8_add_simd16uint16 (this : simd32uint8)
  (other : simd16uint16) : simd16uint16 :=
  simd16uint16_of_simd256bit
    (simd32uint8_binary_func this (simd32uint8_of_simd256bit other)
       (fun a b => to_u8 (a + b))).

(** ** struct simd8float32 *)

(** [simd8float32 unpacklo(simd8float32 a, simd8float32 b)] *)
Definition unpacklo (a b : simd8float32) : simd8float32 :=
  let c := indeterminate in
  let c := set_f32 0 (f32 a 0) c in
  let c := set_f32 1 (f32 b 0) c in
  let c := set_f32 2 (f32 a 1) c in
  let c := set_f32 3 (f32 b 1) c in
  let c := set_f32 4 (f32 a 4) c in
  let c := set_f32 5 (f32 b 4) c in
  let c := set_f32 6 (f32 a 5) c in
  let c := set_f32 7 (f32 b 5) c in
  c.

(** [simd8float32 unpackhi(simd8float32 a, simd8float32 b)] *)
Definition unpackhi (a b : simd8float32) : simd8float32 :=
  let c := indeterminate in
  let c := set_f32 0 (f32 a 2) c in
  let c := set_f32 1 (f32 b 2) c in
  let c := set_f32 2 (f32 a 3) c in
  let c := set_f32 3 (f32 b 3) c in
  let c := set_f32 4 (f32 a 6) c in
  let c := set_f32 5 (f32 b 6) c in
  let c := set_f32 6 (f32 a 7) c in
  let c := set_f32 7 (f32 b 7) c in
  c.

(** ** Further operations of the header *)

(** [memcpy(dst, src, n)], on the bytes at [dst] and at [src]: the bytes at
    [dst] after the call *)
Definition memcpy (dst src : list Z) (n : nat) : list Z :=
  for_loop n (fun j dst => <[j := src !!! j]> dst) dst.

(** [void storeu(void *ptr) const]: the bytes at [ptr] after the call *)
Definition storeu (this : simd256bit) (ptr : list Z) : list Z :=
  memcpy ptr this 32.

(** [void loadu(const void *ptr)]: the register after the call *)
Definition loadu (this : simd256bit) (ptr : list Z) : simd256bit :=
  memcpy this ptr 32.

(** [void store(void *ptr) const] *)
Definition store (this : simd256bit) (ptr : list Z) : list Z :=
  storeu this ptr.

(** [uint16_t get_scalar_0() const] *)
Definition get_scalar_0 (this : simd16uint16) : Z := u16 this 0.

(** [simd16uint16 operator >> (const int shift) const], for [shift >= 0]:
    the operand is promoted to [int] and the result converted to
    [uint16_t] *)
Definition simd16uint16_shr (this : simd16uint16) (shift : nat)
  : simd16uint16 :=
  simd16uint16_unary_func this
    (fun a => to_u16 (Z.shiftr a (Z.of_nat shift))).

(** [simd16uint16 operator << (const int shift) const], for [shift >= 0] *)
Definition simd16uint16_shl (this : simd16uint16) (shift : nat)
  : simd16uint16 :=
  simd16uint16_unary_func this (fun a => to_u16 (int_shl a shift)).

(** [void simd32uint8::set1(uint8_t x)] *)
Definition simd32uint8_set1 (x : Z) (this : simd32uint8) : simd32uint8 :=
  for_loop 32 (fun j this => set_u8 j x this) this.

(** [simd32uint8(int x) {set1(x); }] *)
Definition simd32uint8_of_int (x : Z) : simd32uint8 :=
  simd32uint8_set1 (to_u8 x) indeterminate.

(** [simd32uint8 operator & (simd256bit other) const] *)
Definition simd32uint8_and (this : simd32uint8) (other : simd256bit)
  : simd32uint8 :=
  simd32uint8_binary_func this (simd32uint8_of_simd256bit other)
    (fun a b => to_u8 (Z.land a b)).

(** [r.u32[j]]: the integer that the four bytes of the lane hold *)
Definition u32 (r : simd256bit) (j : nat) : Z :=
  u8 r (4 * j) + 2 ^ 8 * u8 r (4 * j + 1) + 2 ^ 16 * u8 r (4 * j + 2)
  + 2 ^ 24 * u8 r (4 * j + 3).

(** [r.u32[j] = v] *)
Definition set_u32 (j : nat) (v : Z) (r : simd256bit) : simd256bit :=
  set_u8 (4 * j + 3) (v / 2 ^ 24)
    (set_u8 (4 * j + 2) (v / 2 ^ 16 mod 2 ^ 8)
      (set_u8 (4 * j + 1) (v / 2 ^ 8 mod 2 ^ 8)
        (set_u8 (4 * j) (v mod 2 ^ 8) r))).

(** [void simd8uint32::set1(uint32_t x)] *)
Definition simd8uint32_set1 (x : Z) (this : simd256bit) : simd256bit :=
  for_loop 8 (fun i this => set_u32 i x this) this.

(** [simd8uint32(uint32_t x) {set1(x); }] *)
Definition simd8uint32_of_uint32 (x : Z) : simd256bit :=
  simd8uint32_set1 (to_u32 x) indeterminate.

(** a register for the examples: the bytes [1 .. 32] *)
Definition seq_bytes : simd256bit :=
  [1; 2; 3; 4; 5; 6; 7; 8; 9; 10; 11; 12; 13; 14; 15; 16;
   17; 18; 19; 20; 21; 22; 23; 24; 25; 26; 27; 28; 29; 30; 31; 32].

(** * Properties *)

(** linear arithmetic with division and remainder by constants *)
Ltac div_lia := zify; Z.to_euclidean_division_equations; lia.

(** ** Loops and register accesses *)

Lemma for_loop_S {S : Type} (n : nat) (body : nat -> S -> S) (s : S) :
  for_loop (Datatypes.S n) body s = body n (for_loop n body s).
Proof.
  unfold for_loop. rewrite seq_S, fold_left_app. reflexivity.
Qed.

Lemma for_loop_ext {S : Type} (n : nat) (body body' : nat -> S -> S) (s : S) :
  (forall j s', (j < n)%nat -> body j s' = body' j s') ->
  for_loop n body s = for_loop n body' s.
Proof.
  intros Hb. induction n as [|n IH]; [reflexivity|].
  rewrite !for_loop_S, IH by (intros; apply Hb; lia).
  apply Hb. lia.
Qed.

Lemma length_set_u8 j v (r : simd256bit) :
  length (set_u8 j v r) = length r.
Proof. apply length_insert. Qed.

Lemma length_set_u16 j v (r : simd256bit) :
  length (set_u16 j v r) = length r.
Proof. unfold set_u16. rewrite !length_set_u8. reflexivity. Qed.

Lemma length_set_f32 j v (r : simd256bit) :
  length (set_f32 j v r) = length r.
Proof. unfold set_f32. rewrite !length_set_u8. reflexivity. Qed.

Lemma u8_set_u8 j v (r : simd256bit) k :
  (j < length r)%nat ->
  u8 (set_u8 j v r) k = if decide (k = j) then v else u8 r k.
Proof.
  intros Hj. unfold u8, set_u8. rewrite list_lookup_total_insert.
  repeat case_decide; try reflexivity; exfalso; intuition lia.
Qed.

(** two registers with the same 32 bytes are the same register *)
Lemma simd256bit_ext (r1 r2 : simd256bit) :
  length r1 = 32%nat -> length r2 = 32%nat ->
  (forall k, (k < 32)%nat -> u8 r1 k = u8 r2 k) -> r1 = r2.
Proof.
  intros H1 H2 Hk. apply (list_eq_same_length _ _ 32); try assumption.
  intros i x y Hi Hx Hy. specialize (Hk i Hi). unfold u8 in Hk.
  rewrite (list_lookup_total_correct _ _ _ Hx) in Hk.
  rewrite (list_lookup_total_correct _ _ _ Hy) in Hk. exact Hk.
Qed.

(** a loop that stores byte [j] at iteration [j] *)
Lemma for_loop_set_u8 (g : nat -> Z) n (c : simd256bit) :
  (n <= length c)%nat ->
  let r := for_loop n (fun j c => set_u8 j (g j) c) c in
  length r = length c /\
  forall k, u8 r k = if (k <? n)%nat then g k else u8 c k.
Proof.
  intros Hn. induction n as [|n IH]; simpl.
  - split; [reflexivity|]. intros k. reflexivity.
  - destruct IH as [IHl IHk]; [lia|]. rewrite for_loop_S. split.
    + rewrite length_set_u8. exact IHl.
    + intros k. rewrite u8_set_u8 by lia. case_decide as Hkn.
      * subst k. rewrite (proj2 (Nat.ltb_lt _ _)) by lia. reflexivity.
      * rewrite IHk. destruct (Nat.ltb_spec k n), (Nat.ltb_spec k (S n));
          try reflexivity; lia.
Qed.

Lemma u8_set_u16 j v (r : simd256bit) k :
  (2 * j + 1 < length r)%nat ->
  u8 (set_u16 j v r) k = if decide (k / 2 = j)%nat then u16_byte v k else u8 r k.
Proof.
  intros Hj. unfold set_u16. rewrite !u8_set_u8 by (rewrite ?length_set_u8; lia).
  unfold u16_byte. destruct (Nat.even k) eqn:He.
  - apply Nat.even_spec in He. destruct He as [h ->].
    repeat case_decide; try reflexivity; div_lia.
  - assert (Nat.odd k = true) as Ho by (rewrite <- Nat.negb_even, He; reflexivity).
    apply Nat.odd_spec in Ho. destruct Ho as [h ->].
    repeat case_decide; try reflexivity; div_lia.
Qed.

Lemma u16_set_u16 j v (r : simd256bit) k :
  (2 * j + 1 < length r)%nat -> 0 <= v < 2 ^ 16 ->
  u16 (set_u16 j v r) k = if decide (k = j) then v else u16 r k.
Proof.
  intros Hj Hv. unfold u16. rewrite !u8_set_u16 by assumption.
  replace ((2 * k) / 2)%nat with k by div_lia.
  replace ((2 * k + 1) / 2)%nat with k by div_lia.
  case_decide; [|reflexivity]. unfold u16_byte.
  replace (Nat.even (2 * k)) with true
    by (symmetry; apply Nat.even_spec; exists k; reflexivity).
  replace (Nat.even (2 * k + 1)) with false
    by (rewrite <- Nat.negb_odd; symmetry; apply negb_false_iff, Nat.odd_spec;
        exists k; reflexivity).
  div_lia.
Qed.

Lemma well_formed_spec (r : simd256bit) :
  well_formed r = true ->
  length r = 32%nat /\ forall k, (k < 32)%nat -> 0 <= u8 r k < 2 ^ 8.
Proof.
  unfold well_formed. intros H. apply andb_true_iff in H as [Hl Hb].
  apply Nat.eqb_eq in Hl. split; [exact Hl|]. intros k Hk.
  rewrite forallb_forall in Hb.
  destruct (lookup_lt_is_Some_2 r k) as [x Hx]; [lia|].
  unfold u8. rewrite (list_lookup_total_correct _ _ _ Hx).
  specialize (Hb x). rewrite <- list_elem_of_In in Hb.
  specialize (Hb (list_elem_of_lookup_2 _ _ _ Hx)). lia.
Qed.

(** a loop that stores the 16-bit lane [j] at iteration [j] *)
Lemma for_loop_set_u16 (g : nat -> Z) n (c : simd256bit) :
  (2 * n <= length c)%nat ->
  let r := for_loop n (fun j c => set_u16 j (g j) c) c in
  length r = length c /\
  forall k, u8 r k = if (k / 2 <? n)%nat then u16_byte (g (k / 2)%nat) k
                     else u8 c k.
Proof.
  intros Hn. induction n as [|n IH]; cbv zeta.
  - split; [reflexivity|]. intros k. reflexivity.
  - destruct IH as [IHl IHk]; [lia|]. rewrite for_loop_S. split.
    + rewrite length_set_u16. exact IHl.
    + intros k. rewrite u8_set_u16 by lia. case_decide as Hkn.
      * rewrite Hkn, (proj2 (Nat.ltb_lt _ _)) by lia. reflexivity.
      * rewrite IHk. destruct (Nat.ltb_spec (k / 2) n),
          (Nat.ltb_spec (k / 2) (S n)); try reflexivity; lia.
Qed.

Lemma u16_byte_combine (v : Z) (j : nat) :
  0 <= v < 2 ^ 16 ->
  u16_byte v (2 * j) + 2 ^ 8 * u16_byte v (2 * j + 1) = v.
Proof.
  intros Hv. unfold u16_byte.
  replace (Nat.even (2 * j)) with true
    by (symmetry; apply Nat.even_spec; exists j; reflexivity).
  replace (Nat.even (2 * j + 1)) with false
    by (rewrite <- Nat.negb_odd; symmetry; apply negb_false_iff, Nat.odd_spec;
        exists j; reflexivity).
  div_lia.
Qed.

(** the bytes of a lane are the bytes of its 16-bit value *)
Lemma u16_byte_u16 (r : simd256bit) (k : nat) :
  0 <= u8 r (2 * (k / 2)) < 2 ^ 8 -> 0 <= u8 r (2 * (k / 2) + 1) < 2 ^ 8 ->
  u16_byte (u16 r (k / 2)) k = u8 r k.
Proof.
  intros H0 H1. unfold u16_byte, u16. destruct (Nat.even k) eqn:He.
  - apply Nat.even_spec in He. destruct He as [h Hh].
    replace (2 * (k / 2))%nat with k in * by div_lia. div_lia.
  - assert (Nat.odd k = true) as Ho by (rewrite <- Nat.negb_even, He; reflexivity).
    apply Nat.odd_spec in Ho. destruct Ho as [h Hh].
    replace (2 * (k / 2) + 1)%nat with k in * by div_lia. div_lia.
Qed.

Lemma u16_byte_u16_wf (r : simd256bit) (k : nat) :
  well_formed r = true -> (k < 32)%nat -> u16_byte (u16 r (k / 2)) k = u8 r k.
Proof.
  intros Hr Hk. destruct (well_formed_spec r Hr) as [_ Hb].
  apply u16_byte_u16; apply Hb; div_lia.
Qed.

Lemma u16_bounds (r : simd256bit) (j : nat) :
  well_formed r = true -> (j < 16)%nat -> 0 <= u16 r j < 2 ^ 16.
Proof.
  intros Hr Hj. destruct (well_formed_spec r Hr) as [_ Hb]. unfold u16.
  pose proof (Hb (2 * j)%nat ltac:(lia)).
  pose proof (Hb (2 * j + 1)%nat ltac:(lia)). lia.
Qed.

Lemma u8_set_f32 j v (r : simd256bit) k :
  (4 * j + 3 < length r)%nat ->
  u8 (set_f32 j v r) k = if decide (k / 4 = j)%nat then f32_byte v k else u8 r k.
Proof.
  intros Hj. unfold set_f32. rewrite !u8_set_u8 by (rewrite ?length_set_u8; lia).
  unfold f32_byte.
  assert (k mod 4 = 0 \/ k mod 4 = 1 \/ k mod 4 = 2 \/ k mod 4 = 3)%nat
    as [Hm|[Hm|[Hm|Hm]]] by div_lia;
    rewrite Hm; repeat case_decide; try reflexivity; div_lia.
Qed.

Lemma f32_byte_combine (v : Z) (j : nat) :
  0 <= v < 2 ^ 32 ->
  f32_byte v (4 * j) + 2 ^ 8 * f32_byte v (4 * j + 1)
  + 2 ^ 16 * f32_byte v (4 * j + 2) + 2 ^ 24 * f32_byte v (4 * j + 3) = v.
Proof.
  intros Hv. unfold f32_byte.
  replace ((4 * j) mod 4)%nat with 0%nat by div_lia.
  replace ((4 * j + 1) mod 4)%nat with 1%nat by div_lia.
  replace ((4 * j + 2) mod 4)%nat with 2%nat by div_lia.
  replace ((4 * j + 3) mod 4)%nat with 3%nat by div_lia.
  div_lia.
Qed.

Lemma f32_bounds (r : simd256bit) (j : nat) :
  well_formed r = true -> (j < 8)%nat -> 0 <= f32 r j < 2 ^ 32.
Proof.
  intros Hr Hj. destruct (well_formed_spec r Hr) as [_ Hb]. unfold f32.
  pose proof (Hb (4 * j)%nat ltac:(lia)).
  pose proof (Hb (4 * j + 1)%nat ltac:(lia)).
  pose proof (Hb (4 * j + 2)%nat ltac:(lia)).
  pose proof (Hb (4 * j + 3)%nat ltac:(lia)). lia.
Qed.

(** ** Bit masks *)

Lemma land_pow2 (x n : Z) :
  0 <= n -> Z.land x (2 ^ n) = if Z.testbit x n then 2 ^ n else 0.
Proof.
  intros Hn. apply Z.bits_inj'. intros k Hk.
  rewrite Z.land_spec, Z.pow2_bits_eqb by lia.
  destruct (Z.eqb_spec n k) as [->|Hne].
  - destruct (Z.testbit x k); simpl.
    + rewrite Z.pow2_bits_eqb, Z.eqb_refl by lia. reflexivity.
    + rewrite Z.bits_0. reflexivity.
  - rewrite andb_false_r. destruct (Z.testbit x n).
    + rewrite Z.pow2_bits_eqb by lia. symmetry. apply Z.eqb_neq. exact Hne.
    + rewrite Z.bits_0. reflexivity.
Qed.

Lemma land_15_bounds (x : Z) : 0 <= Z.land x 15 < 16.
Proof.
  change 15 with (Z.ones 4). rewrite Z.land_ones by lia.
  apply Z.mod_pos_bound. lia.
Qed.

Lemma to_u32_int_shl (x : Z) (n : nat) :
  0 <= Z.shiftl x (Z.of_nat n) < 2 ^ 32 ->
  to_u32 (int_shl x n) = Z.shiftl x (Z.of_nat n).
Proof.
  unfold to_u32, int_shl, to_i32. generalize (Z.shiftl x (Z.of_nat n)).
  intros y Hy. div_lia.
Qed.

Lemma shiftl_3_bounds (j : nat) :
  (j < 16)%nat -> 0 <= Z.shiftl 3 (Z.of_nat (j * 2)) < 2 ^ 32.
Proof.
  intros Hj. rewrite Z.shiftl_mul_pow2 by lia.
  assert (0 < 2 ^ Z.of_nat (j * 2) <= 2 ^ 30) as Hp.
  { split; [apply Z.pow_pos_nonneg; lia|]. apply Z.pow_le_mono_r; lia. }
  lia.
Qed.

Lemma shiftl_1_bounds (j : nat) :
  (j < 32)%nat -> 0 <= Z.shiftl 1 (Z.of_nat j) < 2 ^ 32.
Proof.
  intros Hj. rewrite Z.shiftl_mul_pow2 by lia.
  assert (0 < 2 ^ Z.of_nat j <= 2 ^ 31) as Hp.
  { split; [apply Z.pow_pos_nonneg; lia|]. apply Z.pow_le_mono_r; lia. }
  lia.
Qed.

Lemma testbit_shiftl_3 (n k : Z) :
  0 <= n -> 0 <= k ->
  Z.testbit (Z.shiftl 3 n) k = (n <=? k) && (k <? n + 2).
Proof.
  intros Hn Hk. rewrite Z.shiftl_spec by lia.
  change 3 with (Z.ones 2). rewrite Z.testbit_ones by lia.
  destruct (Z.leb_spec 0 (k - n)), (Z.leb_spec n k); try lia;
    destruct (Z.ltb_spec (k - n) 2), (Z.ltb_spec k (n + 2)); try lia;
    reflexivity.
Qed.

Lemma testbit_shiftl_1 (n k : Z) :
  0 <= n -> Z.testbit (Z.shiftl 1 n) k = (k =? n).
Proof.
  intros Hn. rewrite Z.shiftl_1_l, Z.pow2_bits_eqb by lia. apply Z.eqb_sym.
Qed.

(** a non-negative integer without bits from position 32 on is a [uint32_t] *)
Lemma bits_below_32 (m : Z) :
  0 <= m -> (forall k, 32 <= k -> Z.testbit m k = false) -> m < 2 ^ 32.
Proof.
  intros Hm Hk. assert (m mod 2 ^ 32 = m) as <-.
  { apply Z.bits_inj'. intros k Hk0. destruct (Z.lt_ge_cases k 32).
    - apply Z.mod_pow2_bits_low. lia.
    - rewrite Z.mod_pow2_bits_high, Hk by lia. reflexivity. }
  apply Z.mod_pos_bound. lia.
Qed.

(** the loop of [ge_mask], for any outcome [c] of the comparisons *)
Lemma ge_mask_loop_bits (c : nat -> bool) (n : nat) :
  (n <= 16)%nat ->
  let m := for_loop n (fun j gem =>
             if c j then Z.lor gem (to_u32 (int_shl 3 (j * 2))) else gem) 0 in
  0 <= m /\
  forall k, 0 <= k ->
    Z.testbit m k = (k / 2 <? Z.of_nat n) && c (Z.to_nat (k / 2)).
Proof.
  intros Hn. induction n as [|n IH]; simpl.
  - split; [reflexivity|]. intros k Hk. rewrite Z.bits_0.
    destruct (Z.ltb_spec (k / 2) (Z.of_nat 0)); [div_lia|reflexivity].
  - destruct IH as [IH0 IHk]; [lia|]. rewrite for_loop_S.
    set (m := for_loop n _ 0) in *.
    rewrite to_u32_int_shl by (apply shiftl_3_bounds; lia).
    pose proof (shiftl_3_bounds n ltac:(lia)) as Hs.
    destruct (c n) eqn:Hc.
    + split; [apply Z.lor_nonneg; lia|]. intros k Hk.
      rewrite Z.lor_spec, IHk, testbit_shiftl_3 by lia.
      destruct (Z.ltb_spec (k / 2) (Z.of_nat n)),
               (Z.ltb_spec (k / 2) (Z.of_nat (S n))),
               (Z.leb_spec (Z.of_nat (n * 2)) k),
               (Z.ltb_spec k (Z.of_nat (n * 2) + 2));
        simpl; try div_lia; rewrite ?orb_false_r; try reflexivity.
      replace (Z.to_nat (k / 2)) with n by div_lia. rewrite Hc. reflexivity.
    + split; [exact IH0|]. intros k Hk. rewrite IHk by lia.
      destruct (Z.ltb_spec (k / 2) (Z.of_nat n)),
               (Z.ltb_spec (k / 2) (Z.of_nat (S n)));
        simpl; try div_lia; try reflexivity.
      replace (Z.to_nat (k / 2)) with n by div_lia. rewrite Hc. reflexivity.
Qed.

(** the loop of [cmp_ge32] and [cmp_le32], for any outcome [c0], [c1] of the
    comparisons *)
Lemma cmp32_loop_bits (c0 c1 : nat -> bool) (n : nat) :
  (n <= 16)%nat ->
  let m := for_loop n (fun j gem =>
             let gem := if c0 j then Z.lor gem (to_u32 (int_shl 1 j))
                        else gem in
             if c1 j then Z.lor gem (to_u32 (int_shl 1 (j + 16)))
             else gem) 0 in
  0 <= m /\
  forall k, 0 <= k ->
    Z.testbit m k =
      (k <? Z.of_nat n) && c0 (Z.to_nat k)
      || (16 <=? k) && (k <? 16 + Z.of_nat n) && c1 (Z.to_nat (k - 16)).
Proof.
  intros Hn. induction n as [|n IH]; simpl.
  - split; [reflexivity|]. intros k Hk. rewrite Z.bits_0.
    destruct (Z.ltb_spec k (Z.of_nat 0)), (Z.leb_spec 16 k),
             (Z.ltb_spec k (16 + Z.of_nat 0)); simpl; try lia; reflexivity.
  - destruct IH as [IH0 IHk]; [lia|]. rewrite for_loop_S.
    set (m := for_loop n _ 0) in *.
    rewrite !to_u32_int_shl by (apply shiftl_1_bounds; lia).
    pose proof (shiftl_1_bounds n ltac:(lia)) as Hs0.
    pose proof (shiftl_1_bounds (n + 16) ltac:(lia)) as Hs1.
    assert (0 <= (if c0 n then Z.lor m (Z.shiftl 1 (Z.of_nat n)) else m)) as H0
      by (destruct (c0 n); [apply Z.lor_nonneg|]; lia).
    split; [destruct (c1 n); [apply Z.lor_nonneg|]; lia|].
    intros k Hk.
    assert (Z.testbit (if c0 n then Z.lor m (Z.shiftl 1 (Z.of_nat n)) else m) k
            = Z.testbit m k || (k =? Z.of_nat n) && c0 n) as E0.
    { destruct (c0 n).
      - rewrite Z.lor_spec, testbit_shiftl_1, andb_true_r by lia. reflexivity.
      - rewrite andb_false_r, orb_false_r. reflexivity. }
    assert (Z.testbit (if c1 n
                       then Z.lor (if c0 n then Z.lor m (Z.shiftl 1 (Z.of_nat n))
                                   else m) (Z.shiftl 1 (Z.of_nat (n + 16)))
                       else if c0 n then Z.lor m (Z.shiftl 1 (Z.of_nat n)) else m) k
            = (Z.testbit m k || (k =? Z.of_nat n) && c0 n)
              || (k =? Z.of_nat (n + 16)) && c1 n) as ->.
    { destruct (c1 n).
      - rewrite Z.lor_spec, testbit_shiftl_1, E0, andb_true_r by lia. reflexivity.
      - rewrite E0, andb_false_r, orb_false_r. reflexivity. }
    rewrite IHk by lia.
    destruct (Z.eqb_spec k (Z.of_nat n)) as [->|Hk0].
    + rewrite Nat2Z.id.
      destruct (Z.ltb_spec (Z.of_nat n) (Z.of_nat n)),
               (Z.ltb_spec (Z.of_nat n) (Z.of_nat (S n))),
               (Z.leb_spec 16 (Z.of_nat n)),
               (Z.eqb_spec (Z.of_nat n) (Z.of_nat (n + 16))); try lia; simpl.
      destruct (c0 n); reflexivity.
    + destruct (Z.eqb_spec k (Z.of_nat (n + 16))) as [->|Hk1].
      * replace (Z.to_nat (Z.of_nat (n + 16) - 16)) with n by lia.
        destruct (Z.ltb_spec (Z.of_nat (n + 16)) (Z.of_nat n)),
                 (Z.ltb_spec (Z.of_nat (n + 16)) (Z.of_nat (S n))),
                 (Z.leb_spec 16 (Z.of_nat (n + 16))),
                 (Z.ltb_spec (Z.of_nat (n + 16)) (16 + Z.of_nat n)),
                 (Z.ltb_spec (Z.of_nat (n + 16)) (16 + Z.of_nat (S n)));
          try lia; simpl. destruct (c1 n); reflexivity.
      * rewrite !andb_false_l, !orb_false_r.
        destruct (Z.ltb_spec k (Z.of_nat n)),
                 (Z.ltb_spec k (Z.of_nat (S n))),
                 (Z.leb_spec 16 k),
                 (Z.ltb_spec k (16 + Z.of_nat n)),
                 (Z.ltb_spec k (16 + Z.of_nat (S n)));
          try lia; reflexivity.
Qed.

(** ** simd16uint16: masks *)

Lemma ge_mask_bits (a thresh : simd16uint16) :
  0 <= ge_mask a thresh < 2 ^ 32 /\
  forall k, 0 <= k ->
    Z.testbit (ge_mask a thresh) k =
      (k / 2 <? 16)
      && (u16 a (Z.to_nat (k / 2)) >=? u16 thresh (Z.to_nat (k / 2))).
Proof.
  destruct (ge_mask_loop_bits (fun j => u16 a j >=? u16 thresh j) 16)
    as [H0 Hk]; [lia|].
  fold (ge_mask a thresh) in H0, Hk. split; [split; [exact H0|]|exact Hk].
  apply bits_below_32; [exact H0|]. intros k Hk32. rewrite Hk by lia.
  destruct (Z.ltb_spec (k / 2) (Z.of_nat 16)); [div_lia|reflexivity].
Qed.

Lemma ge_mask_refl (a : simd16uint16) : ge_mask a a = 0xFFFFFFFF.
Proof.
  destruct (ge_mask_bits a a) as [_ Hk]. apply Z.bits_inj'. intros k Hk0.
  rewrite Hk by lia. change 0xFFFFFFFF with (Z.ones 32).
  rewrite Z.testbit_ones by lia. rewrite Z.geb_leb, Z.leb_refl, andb_true_r.
  rewrite (proj2 (Z.leb_le _ _) Hk0). simpl.
  destruct (Z.ltb_spec (k / 2) 16), (Z.ltb_spec k 32);
    try reflexivity; div_lia.
Qed.

(** C2: [a.ge_mask(thresh)] is the 32-bit value whose bits [2j] and [2j+1]
    are both 1 if [a[j] >= thresh[j]] and both 0 otherwise, for each lane
    [j] in 0..15; hence [a.ge_mask(a)] is [0xFFFFFFFF]. *)
Theorem ge_mask_spec (a thresh : simd16uint16) :
  0 <= ge_mask a thresh < 2 ^ 32 /\
  (forall j, (j < 16)%nat ->
    Z.testbit (ge_mask a thresh) (Z.of_nat (2 * j))
      = (u16 a j >=? u16 thresh j) /\
    Z.testbit (ge_mask a thresh) (Z.of_nat (2 * j + 1))
      = (u16 a j >=? u16 thresh j)) /\
  ge_mask a a = 0xFFFFFFFF.
Proof.
  split; [apply ge_mask_bits|]. split.
  - intros j Hj. destruct (ge_mask_bits a thresh) as [_ Hk].
    rewrite !Hk by lia.
    replace (Z.to_nat (Z.of_nat (2 * j) / 2)) with j by div_lia.
    replace (Z.to_nat (Z.of_nat (2 * j + 1) / 2)) with j by div_lia.
    rewrite !(proj2 (Z.ltb_lt _ _)) by div_lia. split; reflexivity.
  - apply ge_mask_refl.
Qed.

Lemma cmp32_bits (c0 c1 : nat -> bool) :
  let m := for_loop 16 (fun j gem =>
             let gem := if c0 j then Z.lor gem (to_u32 (int_shl 1 j))
                        else gem in
             if c1 j then Z.lor gem (to_u32 (int_shl 1 (j + 16)))
             else gem) 0 in
  0 <= m < 2 ^ 32 /\
  forall j, (j < 16)%nat ->
    Z.testbit m (Z.of_nat j) = c0 j /\ Z.testbit m (Z.of_nat (j + 16)) = c1 j.
Proof.
  destruct (cmp32_loop_bits c0 c1 16) as [H0 Hk]; [lia|].
  simpl. set (m := for_loop 16 _ 0) in *. split; [split; [exact H0|]|].
  - apply bits_below_32; [exact H0|]. intros k Hk32. rewrite Hk by lia.
    rewrite (proj2 (Z.ltb_ge k (Z.of_nat 16))),
            (proj2 (Z.ltb_ge k (16 + Z.of_nat 16))) by lia.
    rewrite andb_false_r. reflexivity.
  - intros j Hj. rewrite !Hk by lia. rewrite Nat2Z.id.
    replace (Z.to_nat (Z.of_nat (j + 16) - 16)) with j by lia.
    rewrite (proj2 (Z.ltb_lt (Z.of_nat j) _)),
            (proj2 (Z.leb_gt 16 (Z.of_nat j))),
            (proj2 (Z.ltb_ge (Z.of_nat (j + 16)) (Z.of_nat 16))),
            (proj2 (Z.leb_le 16 (Z.of_nat (j + 16)))),
            (proj2 (Z.ltb_lt (Z.of_nat (j + 16)) _)) by lia.
    simpl. rewrite orb_false_r. split; reflexivity.
Qed.

(** C4: [a.le_mask(b)] is [b.ge_mask(a)]; [a.gt_mask(b)] is the bitwise
    complement of [a.le_mask(b)] on 32 bits; [a.all_gt(b)] holds iff
    [a.le_mask(b) == 0], that is iff [a[j] > b[j]] for every lane [j]; hence
    [a.all_gt(a)] is false. *)
Theorem le_gt_mask_all_gt_spec (a b : simd16uint16) :
  le_mask a b = ge_mask b a /\
  (gt_mask a b = 0xFFFFFFFF - le_mask a b /\
   forall k, 0 <= k < 32 ->
     Z.testbit (gt_mask a b) k = negb (Z.testbit (le_mask a b) k)) /\
  (all_gt a b = true <-> le_mask a b = 0) /\
  (all_gt a b = true <-> forall j, (j < 16)%nat -> u16 a j > u16 b j) /\
  all_gt a a = false.
Proof.
  split; [reflexivity|]. unfold gt_mask, all_gt, le_mask.
  destruct (ge_mask_bits b a) as [Hm Hk]. split; [split|split; [|split]].
  - unfold to_u32, Z.lnot. div_lia.
  - intros k Hk32. unfold to_u32.
    rewrite Z.mod_pow2_bits_low, Z.lnot_spec by lia. reflexivity.
  - apply Z.eqb_eq.
  - rewrite Z.eqb_eq. split.
    + intros H0 j Hj. specialize (Hk (Z.of_nat (2 * j)) ltac:(lia)).
      rewrite H0, Z.bits_0 in Hk.
      replace (Z.to_nat (Z.of_nat (2 * j) / 2)) with j in Hk by div_lia.
      rewrite (proj2 (Z.ltb_lt _ _)) in Hk by div_lia.
      rewrite Z.geb_leb in Hk. simpl in Hk. symmetry in Hk.
      apply Z.leb_gt in Hk. lia.
    + intros Hgt. apply Z.bits_inj'. intros k Hk0.
      rewrite Hk, Z.bits_0 by lia.
      destruct (Z.ltb_spec (k / 2) 16); [|reflexivity]. simpl.
      rewrite Z.geb_leb. apply Z.leb_gt.
      specialize (Hgt (Z.to_nat (k / 2)) ltac:(div_lia)). lia.
  - rewrite ge_mask_refl. reflexivity.
Qed.

(** ** Loads and stores *)

Lemma list_ext_total (l1 l2 : list Z) (n : nat) :
  length l1 = n -> length l2 = n ->
  (forall k, (k < n)%nat -> l1 !!! k = l2 !!! k) -> l1 = l2.
Proof.
  intros H1 H2 Hk. apply (list_eq_same_length _ _ n); try assumption.
  intros i x y Hi Hx Hy. specialize (Hk i Hi).
  rewrite (list_lookup_total_correct _ _ _ Hx) in Hk.
  rewrite (list_lookup_total_correct _ _ _ Hy) in Hk. exact Hk.
Qed.

Lemma memcpy_bytes (dst src : list Z) (n : nat) :
  (n <= length dst)%nat ->
  length (memcpy dst src n) = length dst /\
  forall k, memcpy dst src n !!! k
            = if (k <? n)%nat then src !!! k else dst !!! k.
Proof.
  intros Hn. apply (for_loop_set_u8 (fun j => src !!! j) n dst Hn).
Qed.

(** X1: [storeu] writes the 32 bytes of the register at the start of the buffer
    and nothing else, and [loadu] reads them back: a store followed by a load
    gives the register that was stored, whatever the loading register held.
    [store] does what [storeu] does. *)
Theorem storeu_loadu (this r0 : simd256bit) (buf : list Z) :
  length this = 32%nat -> length r0 = 32%nat -> (32 <= length buf)%nat ->
  loadu r0 (storeu this buf) = this /\
  length (storeu this buf) = length buf /\
  (forall k, (k < 32)%nat -> storeu this buf !!! k = u8 this k) /\
  (forall k, (32 <= k)%nat -> storeu this buf !!! k = buf !!! k) /\
  store this buf = storeu this buf.
Proof.
  intros Ht Hr Hb.
  destruct (memcpy_bytes buf this 32 Hb) as [Hl Hk].
  fold (storeu this buf) in Hl, Hk.
  destruct (memcpy_bytes r0 (storeu this buf) 32 ltac:(lia)) as [Hl' Hk'].
  fold (loadu r0 (storeu this buf)) in Hl', Hk'.
  split; [|split; [exact Hl|split; [|split; [|reflexivity]]]].
  - apply (list_ext_total _ _ 32); [lia|exact Ht|]. intros k Hk32.
    rewrite Hk', Hk, (proj2 (Nat.ltb_lt k 32) Hk32). reflexivity.
  - intros k Hk32. rewrite Hk, (proj2 (Nat.ltb_lt k 32) Hk32). reflexivity.
  - intros k Hk32. rewrite Hk, (proj2 (Nat.ltb_ge k 32) Hk32). reflexivity.
Qed.

(** X2: [loadu] replaces the whole register by the first 32 bytes of the buffer,
    as the construction from a pointer does; storing the loaded register
    back leaves the buffer as it is. *)
Theorem loadu_storeu (r0 : simd256bit) (buf : list Z) :
  length r0 = 32%nat -> (32 <= length buf)%nat ->
  loadu r0 buf = simd256bit_of_ptr buf /\
  length (loadu r0 buf) = 32%nat /\
  (forall k, (k < 32)%nat -> u8 (loadu r0 buf) k = buf !!! k) /\
  storeu (loadu r0 buf) buf = buf.
Proof.
  intros Hr Hb.
  destruct (memcpy_bytes r0 buf 32 ltac:(lia)) as [Hl Hk].
  fold (loadu r0 buf) in Hl, Hk.
  destruct (memcpy_bytes buf (loadu r0 buf) 32 Hb) as [Hl' Hk'].
  fold (storeu (loadu r0 buf) buf) in Hl', Hk'.
  assert (forall k, (k < 32)%nat -> loadu r0 buf !!! k = buf !!! k) as Hu.
  { intros k Hk32. rewrite Hk, (proj2 (Nat.ltb_lt k 32) Hk32). reflexivity. }
  split; [|split; [lia|split; [exact Hu|]]].
  - apply (list_ext_total _ _ 32); [lia| |].
    + unfold simd256bit_of_ptr. rewrite length_take. lia.
    + intros k Hk32. rewrite (Hu k Hk32). unfold simd256bit_of_ptr.
      rewrite lookup_total_take. case_decide; [reflexivity|lia].
  - apply (list_ext_total _ _ (length buf)); [exact Hl'|reflexivity|].
    intros k _. rewrite Hk'. destruct (Nat.ltb_spec k 32); [|reflexivity].
    apply Hu. assumption.
Qed.

(** ** Relations between the masks *)

Lemma lt_32_half (k : Z) : 0 <= k -> (k / 2 <? 16) = (k <? 32).
Proof.
  intros Hk. destruct (Z.ltb_spec (k / 2) 16), (Z.ltb_spec k 32);
    try reflexivity; div_lia.
Qed.

Lemma gt_mask_bits (a b : simd16uint16) :
  0 <= gt_mask a b < 2 ^ 32 /\
  forall k, 0 <= k ->
    Z.testbit (gt_mask a b) k =
      (k / 2 <? 16)
      && (u16 a (Z.to_nat (k / 2)) >? u16 b (Z.to_nat (k / 2))).
Proof.
  unfold gt_mask, le_mask. destruct (ge_mask_bits b a) as [Hm Hk].
  split; [unfold to_u32; apply Z.mod_pos_bound; lia|]. intros k Hk0.
  unfold to_u32. rewrite Z.testbit_mod_pow2, Z.lnot_spec, Hk by lia.
  rewrite lt_32_half by lia. rewrite Z.geb_leb, Z.gtb_ltb.
  destruct (Z.ltb_spec k 32); [|reflexivity]. simpl.
  rewrite Z.leb_antisym, negb_involutive. reflexivity.
Qed.

Lemma all_gt_lanes (a b : simd16uint16) :
  all_gt a b = true <-> forall j, (j < 16)%nat -> u16 b j < u16 a j.
Proof.
  unfold all_gt, le_mask. destruct (ge_mask_bits b a) as [Hm Hk].
  rewrite Z.eqb_eq. split.
  - intros H0 j Hj. specialize (Hk (Z.of_nat (2 * j)) ltac:(lia)).
    rewrite H0, Z.bits_0 in Hk.
    replace (Z.to_nat (Z.of_nat (2 * j) / 2)) with j in Hk by div_lia.
    rewrite (proj2 (Z.ltb_lt _ _)) in Hk by div_lia.
    rewrite Z.geb_leb in Hk. symmetry in Hk. apply Z.leb_gt in Hk. lia.
  - intros Hgt. apply Z.bits_inj'. intros k Hk0.
    rewrite Hk, Z.bits_0 by lia.
    destruct (Z.ltb_spec (k / 2) 16); [|reflexivity]. simpl.
    rewrite Z.geb_leb. apply Z.leb_gt.
    specialize (Hgt (Z.to_nat (k / 2)) ltac:(div_lia)). lia.
Qed.

(** X3: every lane is [>=] or [<=]: [ge_mask] and [le_mask] together set all 32
    bits, and they both set the two bits of a lane exactly when the lane
    holds equal values; [gt_mask] and [le_mask] share no bit. *)
Theorem ge_le_mask_cover (a b : simd16uint16) :
  Z.lor (ge_mask a b) (le_mask a b) = 0xFFFFFFFF /\
  Z.land (gt_mask a b) (le_mask a b) = 0 /\
  (forall j, (j < 16)%nat ->
    Z.testbit (Z.land (ge_mask a b) (le_mask a b)) (Z.of_nat (2 * j))
      = (u16 a j =? u16 b j) /\
    Z.testbit (Z.land (ge_mask a b) (le_mask a b)) (Z.of_nat (2 * j + 1))
      = (u16 a j =? u16 b j)).
Proof.
  destruct (ge_mask_bits a b) as [_ Hge].
  destruct (ge_mask_bits b a) as [_ Hle].
  destruct (gt_mask_bits a b) as [_ Hgt].
  unfold le_mask. split; [|split].
  - apply Z.bits_inj'. intros k Hk. rewrite Z.lor_spec, Hge, Hle by lia.
    change 0xFFFFFFFF with (Z.ones 32). rewrite Z.testbit_ones_nonneg by lia.
    rewrite lt_32_half by lia. rewrite !Z.geb_leb.
    destruct (Z.ltb_spec k 32); [|reflexivity]. simpl.
    destruct (Z.leb_spec (u16 b (Z.to_nat (k / 2))) (u16 a (Z.to_nat (k / 2))));
      [reflexivity|]. simpl. apply Z.leb_le. lia.
  - apply Z.bits_inj'. intros k Hk.
    rewrite Z.land_spec, Hgt, Hle, Z.bits_0 by lia.
    rewrite Z.geb_leb, Z.gtb_ltb.
    destruct (k / 2 <? 16); [|reflexivity]. simpl.
    rewrite Z.leb_antisym. apply andb_negb_r.
  - intros j Hj. rewrite !Z.land_spec, !Hge, !Hle by lia.
    replace (Z.to_nat (Z.of_nat (2 * j) / 2)) with j by div_lia.
    replace (Z.to_nat (Z.of_nat (2 * j + 1) / 2)) with j by div_lia.
    rewrite !(proj2 (Z.ltb_lt _ 16)) by div_lia. simpl.
    rewrite !Z.geb_leb.
    assert ((u16 b j <=? u16 a j) && (u16 a j <=? u16 b j)
            = (u16 a j =? u16 b j)) as ->; [|split; reflexivity].
    destruct (Z.leb_spec (u16 b j) (u16 a j)), (Z.leb_spec (u16 a j) (u16 b j)),
             (Z.eqb_spec (u16 a j) (u16 b j)); simpl; try reflexivity; lia.
Qed.

(** X4: [all_gt] holds exactly when [gt_mask] has its 32 bits set; it is a strict
    order on the registers: asymmetric and transitive, and it implies
    [ge_mask] to be full. *)
Theorem all_gt_order (a b c : simd16uint16) :
  (all_gt a b = true <-> gt_mask a b = 0xFFFFFFFF) /\
  (all_gt a b = true -> all_gt b a = false) /\
  (all_gt a b = true -> all_gt b c = true -> all_gt a c = true) /\
  (all_gt a b = true -> ge_mask a b = 0xFFFFFFFF).
Proof.
  split; [|split; [|split]].
  - destruct (ge_mask_bits b a) as [Hm _].
    unfold all_gt, gt_mask, le_mask, to_u32, Z.lnot. rewrite Z.eqb_eq.
    split; intros H; div_lia.
  - intros Hab. destruct (all_gt b a) eqn:Hba; [|reflexivity].
    rewrite all_gt_lanes in Hab, Hba.
    specialize (Hab 0%nat ltac:(lia)). specialize (Hba 0%nat ltac:(lia)). lia.
  - rewrite !all_gt_lanes. intros Hab Hbc j Hj.
    specialize (Hab j Hj). specialize (Hbc j Hj). lia.
  - rewrite all_gt_lanes. intros Hab.
    destruct (ge_mask_bits a b) as [_ Hk]. apply Z.bits_inj'. intros k Hk0.
    rewrite Hk by lia. change 0xFFFFFFFF with (Z.ones 32).
    rewrite Z.testbit_ones_nonneg, lt_32_half by lia.
    destruct (Z.ltb_spec k 32); [|reflexivity]. simpl.
    rewrite Z.geb_leb. apply Z.leb_le.
    specialize (Hab (Z.to_nat (k / 2)) ltac:(div_lia)). lia.
Qed.

Lemma uint32_high_bits (m k : Z) :
  0 <= m < 2 ^ 32 -> 32 <= k -> Z.testbit m k = false.
Proof.
  intros Hm Hk. rewrite <- (Z.mod_small m (2 ^ 32)) by exact Hm.
  rewrite Z.testbit_mod_pow2 by lia.
  rewrite (proj2 (Z.ltb_ge k 32)) by lia. reflexivity.
Qed.

Lemma cmp_ge32_bits (d0 d1 thr : simd16uint16) :
  0 <= cmp_ge32 d0 d1 thr < 2 ^ 32 /\
  forall j, (j < 16)%nat ->
    Z.testbit (cmp_ge32 d0 d1 thr) (Z.of_nat j) = (u16 d0 j >=? u16 thr j) /\
    Z.testbit (cmp_ge32 d0 d1 thr) (Z.of_nat (j + 16))
      = (u16 d1 j >=? u16 thr j).
Proof.
  apply (cmp32_bits (fun j => u16 d0 j >=? u16 thr j)
                    (fun j => u16 d1 j >=? u16 thr j)).
Qed.

Lemma cmp_le32_bits (d0 d1 thr : simd16uint16) :
  0 <= cmp_le32 d0 d1 thr < 2 ^ 32 /\
  forall j, (j < 16)%nat ->
    Z.testbit (cmp_le32 d0 d1 thr) (Z.of_nat j) = (u16 d0 j <=? u16 thr j) /\
    Z.testbit (cmp_le32 d0 d1 thr) (Z.of_nat (j + 16))
      = (u16 d1 j <=? u16 thr j).
Proof.
  apply (cmp32_bits (fun j => u16 d0 j <=? u16 thr j)
                    (fun j => u16 d1 j <=? u16 thr j)).
Qed.

(** X5: the two packings agree lane by lane: bit [j] of [cmp_ge32(d0, d1, thr)]
    is bit [2j] of [d0.ge_mask(thr)] and bit [j+16] is bit [2j] of
    [d1.ge_mask(thr)], and the same for [cmp_le32] and [le_mask]; every lane
    being [>=] or [<=], [cmp_ge32] and [cmp_le32] together set all 32 bits. *)
Theorem cmp32_ge_mask (d0 d1 thr : simd16uint16) :
  (forall j, (j < 16)%nat ->
    Z.testbit (cmp_ge32 d0 d1 thr) (Z.of_nat j)
      = Z.testbit (ge_mask d0 thr) (Z.of_nat (2 * j)) /\
    Z.testbit (cmp_ge32 d0 d1 thr) (Z.of_nat (j + 16))
      = Z.testbit (ge_mask d1 thr) (Z.of_nat (2 * j)) /\
    Z.testbit (cmp_le32 d0 d1 thr) (Z.of_nat j)
      = Z.testbit (le_mask d0 thr) (Z.of_nat (2 * j)) /\
    Z.testbit (cmp_le32 d0 d1 thr) (Z.of_nat (j + 16))
      = Z.testbit (le_mask d1 thr) (Z.of_nat (2 * j))) /\
  Z.lor (cmp_ge32 d0 d1 thr) (cmp_le32 d0 d1 thr) = 0xFFFFFFFF.
Proof.
  destruct (cmp_ge32_bits d0 d1 thr) as [Hge0 Hge].
  destruct (cmp_le32_bits d0 d1 thr) as [Hle0 Hle].
  assert (forall (a b : simd16uint16) j, (j < 16)%nat ->
            Z.testbit (ge_mask a b) (Z.of_nat (2 * j)) = (u16 a j >=? u16 b j))
    as Hm.
  { intros a b j Hj. destruct (ge_mask_bits a b) as [_ Hk].
    rewrite Hk by lia.
    replace (Z.to_nat (Z.of_nat (2 * j) / 2)) with j by div_lia.
    rewrite (proj2 (Z.ltb_lt _ 16)) by div_lia. reflexivity. }
  split.
  - intros j Hj. destruct (Hge j Hj) as [-> ->], (Hle j Hj) as [-> ->].
    unfold le_mask. rewrite !Hm by exact Hj. rewrite !Z.geb_leb.
    repeat split; reflexivity.
  - apply Z.bits_inj'. intros k Hk. change 0xFFFFFFFF with (Z.ones 32).
    rewrite Z.testbit_ones_nonneg, Z.lor_spec by lia.
    destruct (Z.ltb_spec k 32) as [Hlt|Hge32].
    + destruct (Z.lt_ge_cases k 16) as [Hlo|Hhi].
      * replace k with (Z.of_nat (Z.to_nat k)) by lia.
        destruct (Hge (Z.to_nat k) ltac:(lia)) as [-> _].
        destruct (Hle (Z.to_nat k) ltac:(lia)) as [-> _].
        rewrite Z.geb_leb. apply orb_true_iff.
        rewrite !Z.leb_le. lia.
      * replace k with (Z.of_nat (Z.to_nat (k - 16) + 16)) by lia.
        destruct (Hge (Z.to_nat (k - 16)) ltac:(lia)) as [_ ->].
        destruct (Hle (Z.to_nat (k - 16)) ltac:(lia)) as [_ ->].
        rewrite Z.geb_leb. apply orb_true_iff.
        rewrite !Z.leb_le. lia.
    + rewrite !uint32_high_bits by assumption. reflexivity.
Qed.

Section Registers.

(** a default-constructed register holds 32 bytes, of any value *)
Hypothesis indeterminate_size : length indeterminate = 32%nat.

(** ** simd32uint8 *)

(** the byte that [lookup_2_lanes] stores at position [j] *)
Lemma lookup_2_lanes_bytes (v idx : simd32uint8) :
  length (lookup_2_lanes v idx) = 32%nat /\
  forall j, (j < 32)%nat ->
    u8 (lookup_2_lanes v idx) j =
      if Z.testbit (u8 idx j) 7 then 0
      else if (j <? 16)%nat then u8 v (Z.to_nat (Z.land (u8 idx j) 15))
           else u8 v (16 + Z.to_nat (Z.land (u8 idx j) 15)).
Proof.
  set (g := fun j : nat =>
    if Z.testbit (u8 idx j) 7 then 0
    else if (j <? 16)%nat then u8 v (Z.to_nat (Z.land (u8 idx j) 15))
         else u8 v (16 + Z.to_nat (Z.land (u8 idx j) 15))).
  assert (lookup_2_lanes v idx
          = for_loop 32 (fun j c => set_u8 j (g j) c) indeterminate) as ->.
  { unfold lookup_2_lanes. apply for_loop_ext. intros j c _. unfold g.
    change 128 with (2 ^ 7). rewrite land_pow2 by lia.
    unfold to_u8. rewrite (Z.mod_small (Z.land _ 15)) by
      (pose proof (land_15_bounds (u8 idx j)); lia).
    destruct (Z.testbit (u8 idx j) 7); simpl; [reflexivity|].
    destruct (j <? 16)%nat; reflexivity. }
  destruct (for_loop_set_u8 g 32 indeterminate) as [Hl Hk]; [lia|].
  split; [congruence|]. intros j Hj. rewrite Hk.
  rewrite (proj2 (Nat.ltb_lt _ _) Hj). reflexivity.
Qed.

(** C1: [lookup_2_lanes] returns the register whose byte [j] is 0 when bit 7
    of [idx[j]] is set and otherwise, with [i = idx[j] & 0x0F], the byte [v[i]]
    when [j < 16] and [v[16 + i]] when [j >= 16]. The index [i] is below 16, so
    bytes 0..15 of the result depend on bytes 0..15 of [v] only, and bytes
    16..31 on bytes 16..31 only. *)
Theorem lookup_2_lanes_spec (v idx : simd32uint8) :
  length (lookup_2_lanes v idx) = 32%nat /\
  (forall j, (j < 32)%nat ->
    let i := Z.to_nat (Z.land (u8 idx j) 15) in
    (i < 16)%nat /\
    u8 (lookup_2_lanes v idx) j =
      if Z.testbit (u8 idx j) 7 then 0
      else if (j <? 16)%nat then u8 v i else u8 v (16 + i)) /\
  (forall v' : simd32uint8,
    (forall k, (k < 16)%nat -> u8 v k = u8 v' k) ->
    forall j, (j < 16)%nat ->
      u8 (lookup_2_lanes v idx) j = u8 (lookup_2_lanes v' idx) j) /\
  (forall v' : simd32uint8,
    (forall k, (16 <= k < 32)%nat -> u8 v k = u8 v' k) ->
    forall j, (16 <= j < 32)%nat ->
      u8 (lookup_2_lanes v idx) j = u8 (lookup_2_lanes v' idx) j).
Proof.
  destruct (lookup_2_lanes_bytes v idx) as [Hl Hb].
  assert (forall x, (Z.to_nat (Z.land x 15) < 16)%nat) as Hi
    by (intros x; pose proof (land_15_bounds x); lia).
  split; [exact Hl|]. split; [|split].
  - intros j Hj i. split; [apply Hi|]. apply Hb, Hj.
  - intros v' Hv j Hj. destruct (lookup_2_lanes_bytes v' idx) as [_ Hb'].
    rewrite Hb, Hb' by lia. rewrite (proj2 (Nat.ltb_lt _ _) Hj).
    destruct (Z.testbit (u8 idx j) 7); [reflexivity|]. apply Hv, Hi.
  - intros v' Hv j Hj. destruct (lookup_2_lanes_bytes v' idx) as [_ Hb'].
    rewrite Hb, Hb' by lia. rewrite (proj2 (Nat.ltb_ge _ _)) by lia.
    destruct (Z.testbit (u8 idx j) 7); [reflexivity|]. apply Hv.
    specialize (Hi (u8 idx j)). lia.
Qed.

(** ** simd16uint16: elementwise operations *)

Lemma to_u16_bounds (z : Z) : 0 <= to_u16 z < 2 ^ 16.
Proof. unfold to_u16. apply Z.mod_pos_bound. lia. Qed.

Lemma simd16uint16_set1_bytes (x : Z) (this : simd16uint16) :
  length this = 32%nat ->
  length (simd16uint16_set1 x this) = 32%nat /\
  forall k, (k < 32)%nat -> u8 (simd16uint16_set1 x this) k = u16_byte x k.
Proof.
  intros Hl. destruct (for_loop_set_u16 (fun _ => x) 16 this) as [Hl' Hk]; [lia|].
  split; [unfold simd16uint16_set1; congruence|]. intros k Hk32.
  unfold simd16uint16_set1. rewrite Hk.
  rewrite (proj2 (Nat.ltb_lt _ _)) by div_lia. reflexivity.
Qed.

Lemma simd16uint16_of_int_lanes (x : Z) (j : nat) :
  (j < 16)%nat -> u16 (simd16uint16_of_int x) j = to_u16 x.
Proof.
  intros Hj. unfold simd16uint16_of_int, u16.
  destruct (simd16uint16_set1_bytes (to_u16 x) indeterminate indeterminate_size)
    as [_ Hk].
  rewrite !Hk by lia. apply u16_byte_combine, to_u16_bounds.
Qed.

Lemma simd16uint16_binary_func_bytes (a b : simd16uint16) (f : Z -> Z -> Z) :
  length (simd16uint16_binary_func a b f) = 32%nat /\
  forall k, (k < 32)%nat ->
    u8 (simd16uint16_binary_func a b f) k
      = u16_byte (f (u16 a (k / 2)) (u16 b (k / 2))) k.
Proof.
  destruct (for_loop_set_u16 (fun j => f (u16 a j) (u16 b j)) 16 indeterminate)
    as [Hl Hk]; [lia|].
  split; [unfold simd16uint16_binary_func; congruence|]. intros k Hk32.
  unfold simd16uint16_binary_func. rewrite Hk.
  rewrite (proj2 (Nat.ltb_lt _ _)) by div_lia. reflexivity.
Qed.

Lemma simd16uint16_binary_func_lanes (a b : simd16uint16) (f : Z -> Z -> Z) j :
  (j < 16)%nat -> 0 <= f (u16 a j) (u16 b j) < 2 ^ 16 ->
  u16 (simd16uint16_binary_func a b f) j = f (u16 a j) (u16 b j).
Proof.
  intros Hj Hf. unfold u16 at 1.
  destruct (simd16uint16_binary_func_bytes a b f) as [_ Hk].
  rewrite !Hk by lia.
  replace ((2 * j) / 2)%nat with j by div_lia.
  replace ((2 * j + 1) / 2)%nat with j by div_lia.
  apply u16_byte_combine, Hf.
Qed.

(** C5: [(a + b) - b == a] for all 16-lane vectors, the elementwise [+] and
    [-] wrapping modulo 2^16: the two registers are equal, lane for lane, and
    [operator ==] sets every lane of its mask. *)
Theorem add_sub_cancel (a b : simd16uint16) :
  well_formed a = true ->
  simd16uint16_sub (simd16uint16_add a b) b = a /\
  (forall j, (j < 16)%nat ->
    u16 (simd16uint16_add a b) j = (u16 a j + u16 b j) mod 2 ^ 16 /\
    u16 (simd16uint16_sub (simd16uint16_add a b) b) j = u16 a j /\
    u16 (simd16uint16_eq (simd16uint16_sub (simd16uint16_add a b) b) a) j
      = 0xFFFF).
Proof.
  intros Ha. destruct (well_formed_spec a Ha) as [Hla Hba].
  assert (forall j, (j < 16)%nat ->
            u16 (simd16uint16_add a b) j = to_u16 (u16 a j + u16 b j)) as Hadd.
  { intros j Hj. unfold simd16uint16_add.
    apply simd16uint16_binary_func_lanes; [exact Hj|apply to_u16_bounds]. }
  assert (simd16uint16_sub (simd16uint16_add a b) b = a) as Hsub.
  { unfold simd16uint16_sub.
    destruct (simd16uint16_binary_func_bytes (simd16uint16_add a b) b
                (fun x y => to_u16 (x - y))) as [Hl Hk].
    apply simd256bit_ext; [exact Hl|exact Hla|]. intros k Hk32.
    rewrite Hk, Hadd by div_lia.
    rewrite <- (u16_byte_u16_wf a k Ha Hk32). f_equal.
    pose proof (u16_bounds a (k / 2) Ha ltac:(div_lia)) as Hr.
    unfold to_u16. div_lia. }
  split; [exact Hsub|]. intros j Hj. split; [apply Hadd, Hj|].
  rewrite Hsub. split; [reflexivity|].
  unfold simd16uint16_eq, simd16uint16_of_simd256bit.
  rewrite simd16uint16_binary_func_lanes by (try apply to_u16_bounds; exact Hj).
  rewrite Z.eqb_refl. reflexivity.
Qed.

(** the loop of [combine2x2], for any values [A j], [B j] stored in lanes
    [j] and [j + 8] *)
Lemma combine2x2_loop_bytes (A B : nat -> Z) (n : nat) (c : simd256bit) :
  (n <= 8)%nat -> length c = 32%nat ->
  let r := for_loop n (fun j c =>
             let c := set_u16 j (A j) c in set_u16 (j + 8) (B j) c) c in
  length r = 32%nat /\
  forall k, u8 r k =
    if (k / 2 <? n)%nat then u16_byte (A (k / 2)%nat) k
    else if (8 <=? k / 2)%nat && (k / 2 <? 8 + n)%nat
         then u16_byte (B (k / 2 - 8)%nat) k
         else u8 c k.
Proof.
  intros Hn Hc. induction n as [|n IH]; cbv zeta.
  - split; [exact Hc|]. intros k. change (for_loop 0 _ c) with c.
    destruct (Nat.ltb_spec (k / 2) 0), (Nat.leb_spec 8 (k / 2)),
             (Nat.ltb_spec (k / 2) (8 + 0)); simpl; try lia; reflexivity.
  - destruct IH as [IHl IHk]; [lia|]. rewrite for_loop_S. cbv zeta.
    set (r := for_loop n _ c) in *. split.
    + rewrite !length_set_u16. exact IHl.
    + intros k. rewrite !u8_set_u16 by (rewrite ?length_set_u16; lia).
      rewrite IHk. generalize (k / 2)%nat. intros q.
      destruct (decide (q = n + 8)%nat) as [->|H1];
        [|destruct (decide (q = n)) as [->|H2]].
      * rewrite (proj2 (Nat.ltb_ge (n + 8) (S n))),
                (proj2 (Nat.leb_le 8 (n + 8))),
                (proj2 (Nat.ltb_lt (n + 8) (8 + S n))) by lia. simpl.
        replace (n + 8 - 8)%nat with n by lia. reflexivity.
      * rewrite (proj2 (Nat.ltb_lt n (S n))) by lia. reflexivity.
      * destruct (Nat.ltb_spec q n), (Nat.ltb_spec q (S n)),
                 (Nat.leb_spec 8 q), (Nat.ltb_spec q (8 + n)),
                 (Nat.ltb_spec q (8 + S n));
          simpl; try lia; reflexivity.
Qed.

Lemma combine2x2_bytes (a b : simd16uint16) :
  length (combine2x2 a b) = 32%nat /\
  forall k, (k < 32)%nat ->
    u8 (combine2x2 a b) k =
      u16_byte (if (k / 2 <? 8)%nat
                then to_u16 (u16 a (k / 2) + u16 a (k / 2 + 8))
                else to_u16 (u16 b (k / 2 - 8) + u16 b (k / 2 - 8 + 8))) k.
Proof.
  destruct (combine2x2_loop_bytes
              (fun j => to_u16 (u16 a j + u16 a (j + 8)))
              (fun j => to_u16 (u16 b j + u16 b (j + 8)))
              8 indeterminate) as [Hl Hk]; [lia|exact indeterminate_size|].
  split; [exact Hl|]. intros k Hk32. unfold combine2x2. rewrite Hk.
  destruct (Nat.ltb_spec (k / 2) 8); [reflexivity|].
  rewrite (proj2 (Nat.leb_le _ _)), (proj2 (Nat.ltb_lt _ _)) by div_lia.
  reflexivity.
Qed.

(** C6: lane [j] of [combine2x2(a, b)] is [a[j] + a[j+8]] and lane [j+8] is
    [b[j] + b[j+8]] modulo 2^16, for [j] in 0..7; with [a] all 1 and [b]
    all 2 the result is eight 2s followed by eight 4s. *)
Theorem combine2x2_spec (a b : simd16uint16) :
  (forall j, (j < 8)%nat ->
    u16 (combine2x2 a b) j = (u16 a j + u16 a (j + 8)) mod 2 ^ 16 /\
    u16 (combine2x2 a b) (j + 8) = (u16 b j + u16 b (j + 8)) mod 2 ^ 16) /\
  combine2x2 (simd16uint16_of_int 1) (simd16uint16_of_int 2)
    = simd16uint16_of_ptr [2; 2; 2; 2; 2; 2; 2; 2; 4; 4; 4; 4; 4; 4; 4; 4].
Proof.
  split.
  - intros j Hj. destruct (combine2x2_bytes a b) as [_ Hk]. unfold u16 at 1 4.
    rewrite !Hk by lia.
    replace ((2 * j) / 2)%nat with j by div_lia.
    replace ((2 * j + 1) / 2)%nat with j by div_lia.
    replace ((2 * (j + 8)) / 2)%nat with (j + 8)%nat by div_lia.
    replace ((2 * (j + 8) + 1) / 2)%nat with (j + 8)%nat by div_lia.
    rewrite (proj2 (Nat.ltb_lt j 8)), (proj2 (Nat.ltb_ge (j + 8) 8)) by lia.
    replace (j + 8 - 8)%nat with j by lia.
    split; apply u16_byte_combine, to_u16_bounds.
  - destruct (combine2x2_bytes (simd16uint16_of_int 1) (simd16uint16_of_int 2))
      as [Hl Hk].
    apply simd256bit_ext; [exact Hl|reflexivity|]. intros k Hk32.
    rewrite Hk by exact Hk32.
    destruct (Nat.ltb_spec (k / 2) 8) as [Hlo|Hhi];
      rewrite !simd16uint16_of_int_lanes by div_lia;
      do 32 (destruct k as [|k]; [first [reflexivity|exfalso; div_lia]|]);
      lia.
Qed.

(** the loop of [accu_min] and [accu_max], for any comparison [cmp] *)
Lemma accu_loop (cmp : Z -> Z -> bool) (a b : simd16uint16) (n : nat) :
  (n <= 16)%nat -> length a = 32%nat ->
  let st := for_loop n (fun j '(this, incoming) =>
              if cmp (u16 incoming j) (u16 this j)
              then (set_u16 j (u16 incoming j) this, incoming)
              else (this, incoming)) (a, b) in
  snd st = b /\ length (fst st) = 32%nat /\
  forall k, u8 (fst st) k =
    if (k / 2 <? n)%nat && cmp (u16 b (k / 2)) (u16 a (k / 2))
    then u16_byte (u16 b (k / 2)) k else u8 a k.
Proof.
  intros Hn Ha. induction n as [|n IH]; cbv zeta.
  - change (for_loop 0 _ (a, b)) with (a, b). cbn [fst snd].
    split; [reflexivity|]. split; [exact Ha|]. intros k.
    destruct (Nat.ltb_spec (k / 2) 0); [lia|reflexivity].
  - destruct IH as (IHs & IHl & IHk); [lia|]. rewrite for_loop_S.
    destruct (for_loop n _ (a, b)) as [this incoming]. cbn [fst snd] in IHs, IHl, IHk.
    subst incoming.
    assert (u16 this n = u16 a n) as Hthis.
    { unfold u16. rewrite !IHk.
      replace ((2 * n) / 2)%nat with n by div_lia.
      replace ((2 * n + 1) / 2)%nat with n by div_lia.
      rewrite (proj2 (Nat.ltb_ge n n)) by lia. reflexivity. }
    rewrite Hthis. destruct (cmp (u16 b n) (u16 a n)) eqn:Hc; cbn [fst snd].
    + split; [reflexivity|]. split; [rewrite length_set_u16; exact IHl|].
      intros k. rewrite u8_set_u16, IHk by lia. case_decide as Hkn.
      * rewrite Hkn, Hc, (proj2 (Nat.ltb_lt n (S n))) by lia. reflexivity.
      * destruct (Nat.ltb_spec (k / 2) n), (Nat.ltb_spec (k / 2) (S n));
          try lia; reflexivity.
    + split; [reflexivity|]. split; [exact IHl|]. intros k. rewrite IHk.
      destruct (Nat.ltb_spec (k / 2) n), (Nat.ltb_spec (k / 2) (S n));
        try lia; try reflexivity.
      replace (k / 2)%nat with n by lia. rewrite Hc. reflexivity.
Qed.

(** C9: after [a.accu_min(b)] the receiver is [min(a, b)] for the value [a]
    it had before the call, after [a.accu_max(b)] it is [max(a, b)], and the
    argument is unchanged in both cases. *)
Theorem accu_min_max_spec (a b : simd16uint16) :
  well_formed a = true ->
  accu_min a b = (min a b, b) /\ accu_max a b = (max a b, b).
Proof.
  intros Ha. destruct (well_formed_spec a Ha) as [Hla _]. split.
  - destruct (accu_loop Z.ltb a b 16) as (Hs & Hl & Hk); [lia|exact Hla|].
    fold (accu_min a b) in Hs, Hl, Hk.
    rewrite (surjective_pairing (accu_min a b)), Hs. f_equal.
    destruct (simd16uint16_binary_func_bytes a b std_min) as [Hl' Hk'].
    apply simd256bit_ext; [exact Hl|exact Hl'|]. intros k Hk32. symmetry.
    unfold min. rewrite Hk, Hk' by exact Hk32. unfold std_min.
    rewrite (proj2 (Nat.ltb_lt (k / 2) 16)), andb_true_l by div_lia.
    destruct (u16 b (k / 2) <? u16 a (k / 2)); [reflexivity|].
    apply u16_byte_u16_wf; assumption.
  - destruct (accu_loop Z.gtb a b 16) as (Hs & Hl & Hk); [lia|exact Hla|].
    fold (accu_max a b) in Hs, Hl, Hk.
    rewrite (surjective_pairing (accu_max a b)), Hs. f_equal.
    destruct (simd16uint16_binary_func_bytes a b std_max) as [Hl' Hk'].
    apply simd256bit_ext; [exact Hl|exact Hl'|]. intros k Hk32. symmetry.
    unfold max. rewrite Hk, Hk' by exact Hk32. unfold std_max.
    rewrite (proj2 (Nat.ltb_lt (k / 2) 16)), andb_true_l by div_lia.
    rewrite Z.gtb_ltb.
    destruct (u16 a (k / 2) <? u16 b (k / 2)); [reflexivity|].
    apply u16_byte_u16_wf; assumption.
Qed.

(** C3: [cmp_ge32(d0, d1, thr)] is the 32-bit mask whose bit [j] is 1 iff
    [d0[j] >= thr[j]] and whose bit [j+16] is 1 iff [d1[j] >= thr[j]], for
    [j] in 0..15, and [cmp_le32] is the same with [<=]. With [d0 = 0..15],
    [d1 = 100..115] and [thr] all 5, bit [j] of [cmp_ge32] is 1 iff [j >= 5]
    and bits 16..31 are 1. *)
Theorem cmp_ge32_cmp_le32_spec (d0 d1 thr : simd16uint16) :
  (0 <= cmp_ge32 d0 d1 thr < 2 ^ 32 /\
   forall j, (j < 16)%nat ->
     Z.testbit (cmp_ge32 d0 d1 thr) (Z.of_nat j) = (u16 d0 j >=? u16 thr j) /\
     Z.testbit (cmp_ge32 d0 d1 thr) (Z.of_nat (j + 16))
       = (u16 d1 j >=? u16 thr j)) /\
  (0 <= cmp_le32 d0 d1 thr < 2 ^ 32 /\
   forall j, (j < 16)%nat ->
     Z.testbit (cmp_le32 d0 d1 thr) (Z.of_nat j) = (u16 d0 j <=? u16 thr j) /\
     Z.testbit (cmp_le32 d0 d1 thr) (Z.of_nat (j + 16))
       = (u16 d1 j <=? u16 thr j)) /\
  (let e0 := simd16uint16_of_ptr [0; 1; 2; 3; 4; 5; 6; 7; 8; 9; 10; 11; 12;
                                  13; 14; 15] in
   let e1 := simd16uint16_of_ptr [100; 101; 102; 103; 104; 105; 106; 107;
                                  108; 109; 110; 111; 112; 113; 114; 115] in
   let m := cmp_ge32 e0 e1 (simd16uint16_of_int 5) in
   forall j, (j < 16)%nat ->
     Z.testbit m (Z.of_nat j) = (5 <=? j)%nat /\
     Z.testbit m (Z.of_nat (j + 16)) = true).
Proof.
  split; [|split].
  - apply (cmp32_bits (fun j => u16 d0 j >=? u16 thr j)
                      (fun j => u16 d1 j >=? u16 thr j)).
  - apply (cmp32_bits (fun j => u16 d0 j <=? u16 thr j)
                      (fun j => u16 d1 j <=? u16 thr j)).
  - intros e0 e1 m j Hj.
    pose proof (cmp32_bits (fun j => u16 e0 j >=? u16 (simd16uint16_of_int 5) j)
                  (fun j => u16 e1 j >=? u16 (simd16uint16_of_int 5) j)) as Hb.
    cbv zeta in Hb. destruct Hb as [_ Hb]. specialize (Hb j Hj).
    subst m. unfold cmp_ge32. destruct Hb as [-> ->].
    rewrite simd16uint16_of_int_lanes by assumption.
    do 16 (destruct j as [|j]; [split; reflexivity|]). lia.
Qed.

(** ** simd32uint8: addition of a simd16uint16 *)

Lemma simd32uint8_binary_func_bytes (a b : simd32uint8) (f : Z -> Z -> Z) :
  length (simd32uint8_binary_func a b f) = 32%nat /\
  forall k, (k < 32)%nat ->
    u8 (simd32uint8_binary_func a b f) k = f (u8 a k) (u8 b k).
Proof.
  destruct (for_loop_set_u8 (fun j => f (u8 a j) (u8 b j)) 32 indeterminate)
    as [Hl Hk]; [lia|].
  split; [unfold simd32uint8_binary_func; congruence|]. intros k Hk32.
  unfold simd32uint8_binary_func. rewrite Hk.
  rewrite (proj2 (Nat.ltb_lt _ _) Hk32). reflexivity.
Qed.

(** C10: [a + b] for a [simd32uint8 a] and a [simd16uint16 b] widens
    nothing: byte [k] of the result is the sum modulo 2^8 of byte [k] of [a]
    and of the raw byte [k] of [b], which is the low or the high byte of the
    lane [b[k / 2]]; the result is the register of the 8-bit [+] applied to
    [a] and to [b] seen as a [simd32uint8]. *)
Theorem simd32uint8_add_simd16uint16_spec (a : simd32uint8) (b : simd16uint16) :
  length (simd32uint8_add_simd16uint16 a b) = 32%nat /\
  (forall k, (k < 32)%nat ->
    u8 (simd32uint8_add_simd16uint16 a b) k = (u8 a k + u8 b k) mod 2 ^ 8) /\
  (well_formed b = true ->
   forall k, (k < 32)%nat ->
     u8 (simd32uint8_add_simd16uint16 a b) k
       = (u8 a k + u16_byte (u16 b (k / 2)) k) mod 2 ^ 8) /\
  simd32uint8_add_simd16uint16 a b
    = simd32uint8_add a (simd32uint8_of_simd256bit b).
Proof.
  unfold simd32uint8_add_simd16uint16, simd16uint16_of_simd256bit,
    simd32uint8_of_simd256bit.
  destruct (simd32uint8_binary_func_bytes a b (fun x y => to_u8 (x + y)))
    as [Hl Hk].
  split; [exact Hl|]. split; [exact Hk|]. split; [|reflexivity].
  intros Hb k Hk32. rewrite Hk, u16_byte_u16_wf by assumption. reflexivity.
Qed.

(** ** simd8float32 *)

Lemma unpack_bytes (c : simd256bit) (v0 v1 v2 v3 v4 v5 v6 v7 : Z) :
  length c = 32%nat ->
  let r := set_f32 7 v7 (set_f32 6 v6 (set_f32 5 v5 (set_f32 4 v4
            (set_f32 3 v3 (set_f32 2 v2 (set_f32 1 v1 (set_f32 0 v0 c))))))) in
  length r = 32%nat /\
  forall j, (j < 8)%nat ->
    0 <= nth j [v0; v1; v2; v3; v4; v5; v6; v7] 0 < 2 ^ 32 ->
    f32 r j = nth j [v0; v1; v2; v3; v4; v5; v6; v7] 0.
Proof.
  intros Hc r. split; [unfold r; rewrite !length_set_f32; exact Hc|].
  intros j Hj Hv. rewrite <- (f32_byte_combine _ j Hv).
  unfold f32, r. rewrite !u8_set_f32 by (rewrite ?length_set_f32; lia).
  replace ((4 * j) / 4)%nat with j by div_lia.
  replace ((4 * j + 1) / 4)%nat with j by div_lia.
  replace ((4 * j + 2) / 4)%nat with j by div_lia.
  replace ((4 * j + 3) / 4)%nat with j by div_lia.
  do 8 (destruct j as [|j]; [reflexivity|]). lia.
Qed.

(** C7: [unpacklo(a, b)] is [{a0, b0, a1, b1, a4, b4, a5, b5}] and
    [unpackhi(a, b)] is [{a2, b2, a3, b3, a6, b6, a7, b7}]; each lane of the
    result holds the 32 bits of the named lane of [a] or [b]. *)
Theorem unpacklo_unpackhi_spec (a b : simd8float32) :
  well_formed a = true -> well_formed b = true ->
  (length (unpacklo a b) = 32%nat /\
   map (f32 (unpacklo a b)) (seq 0 8)
     = [f32 a 0; f32 b 0; f32 a 1; f32 b 1; f32 a 4; f32 b 4; f32 a 5; f32 b 5])
  /\
  (length (unpackhi a b) = 32%nat /\
   map (f32 (unpackhi a b)) (seq 0 8)
     = [f32 a 2; f32 b 2; f32 a 3; f32 b 3; f32 a 6; f32 b 6; f32 a 7; f32 b 7]).
Proof.
  intros Ha Hb.
  assert (forall j, (j < 8)%nat -> 0 <= f32 a j < 2 ^ 32) as Hfa
    by (intros; apply f32_bounds; assumption).
  assert (forall j, (j < 8)%nat -> 0 <= f32 b j < 2 ^ 32) as Hfb
    by (intros; apply f32_bounds; assumption).
  split.
  - destruct (unpack_bytes indeterminate (f32 a 0) (f32 b 0) (f32 a 1) (f32 b 1)
                (f32 a 4) (f32 b 4) (f32 a 5) (f32 b 5) indeterminate_size)
      as [Hl Hf].
    fold (unpacklo a b) in Hl, Hf. split; [exact Hl|].
    cbn [map seq]. rewrite !Hf by (cbn [nth]; first [lia|apply Hfa; lia|apply Hfb; lia]).
    reflexivity.
  - destruct (unpack_bytes indeterminate (f32 a 2) (f32 b 2) (f32 a 3) (f32 b 3)
                (f32 a 6) (f32 b 6) (f32 a 7) (f32 b 7) indeterminate_size)
      as [Hl Hf].
    fold (unpackhi a b) in Hl, Hf. split; [exact Hl|].
    cbn [map seq]. rewrite !Hf by (cbn [nth]; first [lia|apply Hfa; lia|apply Hfb; lia]).
    reflexivity.
Qed.

(** ** simd16uint16: the algebra of the elementwise operations *)

Lemma well_formed_intro (r : simd256bit) :
  length r = 32%nat -> (forall k, (k < 32)%nat -> 0 <= u8 r k < 2 ^ 8) ->
  well_formed r = true.
Proof.
  intros Hl Hb. unfold well_formed. apply andb_true_iff. split.
  - apply Nat.eqb_eq, Hl.
  - apply forallb_forall. intros x Hx. apply list_elem_of_In in Hx.
    apply list_elem_of_lookup in Hx as [k Hk].
    pose proof (lookup_lt_Some _ _ _ Hk) as Hlt.
    specialize (Hb k ltac:(lia)). unfold u8 in Hb.
    rewrite (list_lookup_total_correct _ _ _ Hk) in Hb. lia.
Qed.

Lemma u16_byte_bounds (v : Z) (k : nat) :
  0 <= v < 2 ^ 16 -> 0 <= u16_byte v k < 2 ^ 8.
Proof. intros Hv. unfold u16_byte. destruct (Nat.even k); div_lia. Qed.

(** the register that a loop over the 16 lanes builds from the lane values
    [g j] *)
Lemma lanes16_bytes (g : nat -> Z) :
  let r := for_loop 16 (fun j c => set_u16 j (g j) c) indeterminate in
  length r = 32%nat /\
  forall k, (k < 32)%nat -> u8 r k = u16_byte (g (k / 2)%nat) k.
Proof.
  destruct (for_loop_set_u16 g 16 indeterminate) as [Hl Hk]; [lia|].
  cbv zeta. split; [congruence|]. intros k Hk32. rewrite Hk.
  rewrite (proj2 (Nat.ltb_lt _ _)) by div_lia. reflexivity.
Qed.

Lemma lanes16_u16 (g : nat -> Z) (j : nat) :
  (j < 16)%nat -> 0 <= g j < 2 ^ 16 ->
  u16 (for_loop 16 (fun j c => set_u16 j (g j) c) indeterminate) j = g j.
Proof.
  intros Hj Hg. destruct (lanes16_bytes g) as [_ Hk]. unfold u16.
  rewrite !Hk by lia.
  replace ((2 * j) / 2)%nat with j by div_lia.
  replace ((2 * j + 1) / 2)%nat with j by div_lia.
  apply u16_byte_combine, Hg.
Qed.

Lemma lanes16_ext (g g' : nat -> Z) :
  (forall j, (j < 16)%nat -> g j = g' j) ->
  for_loop 16 (fun j c => set_u16 j (g j) c) indeterminate
  = for_loop 16 (fun j c => set_u16 j (g' j) c) indeterminate.
Proof.
  intros Hg. apply for_loop_ext. intros j c Hj. rewrite (Hg j Hj). reflexivity.
Qed.

Lemma lanes16_reg (g : nat -> Z) (r : simd256bit) :
  well_formed r = true -> (forall j, (j < 16)%nat -> g j = u16 r j) ->
  for_loop 16 (fun j c => set_u16 j (g j) c) indeterminate = r.
Proof.
  intros Hr Hg. destruct (lanes16_bytes g) as [Hl Hk].
  destruct (well_formed_spec r Hr) as [Hlr _].
  apply simd256bit_ext; [exact Hl|exact Hlr|]. intros k Hk32.
  rewrite Hk, Hg by div_lia. apply u16_byte_u16_wf; assumption.
Qed.

Lemma lanes16_wf (g : nat -> Z) :
  (forall j, (j < 16)%nat -> 0 <= g j < 2 ^ 16) ->
  well_formed (for_loop 16 (fun j c => set_u16 j (g j) c) indeterminate)
  = true.
Proof.
  intros Hg. destruct (lanes16_bytes g) as [Hl Hk].
  apply well_formed_intro; [exact Hl|]. intros k Hk32. rewrite Hk by exact Hk32.
  apply u16_byte_bounds, Hg. div_lia.
Qed.

Lemma simd16uint16_add_lanes (a b : simd16uint16) (j : nat) :
  (j < 16)%nat -> u16 (simd16uint16_add a b) j = to_u16 (u16 a j + u16 b j).
Proof.
  intros Hj.
  apply (lanes16_u16 (fun j => to_u16 (u16 a j + u16 b j)) j Hj), to_u16_bounds.
Qed.

Lemma simd16uint16_sub_lanes (a b : simd16uint16) (j : nat) :
  (j < 16)%nat -> u16 (simd16uint16_sub a b) j = to_u16 (u16 a j - u16 b j).
Proof.
  intros Hj.
  apply (lanes16_u16 (fun j => to_u16 (u16 a j - u16 b j)) j Hj), to_u16_bounds.
Qed.

Lemma simd16uint16_and_lanes (a b : simd16uint16) (j : nat) :
  (j < 16)%nat ->
  u16 (simd16uint16_and a b) j = to_u16 (Z.land (u16 a j) (u16 b j)).
Proof.
  intros Hj.
  apply (lanes16_u16 (fun j => to_u16 (Z.land (u16 a j) (u16 b j))) j Hj),
    to_u16_bounds.
Qed.

Lemma simd16uint16_or_lanes (a b : simd16uint16) (j : nat) :
  (j < 16)%nat ->
  u16 (simd16uint16_or a b) j = to_u16 (Z.lor (u16 a j) (u16 b j)).
Proof.
  intros Hj.
  apply (lanes16_u16 (fun j => to_u16 (Z.lor (u16 a j) (u16 b j))) j Hj),
    to_u16_bounds.
Qed.

Lemma simd16uint16_not_lanes (a : simd16uint16) (j : nat) :
  (j < 16)%nat -> u16 (simd16uint16_not a) j = to_u16 (Z.lnot (u16 a j)).
Proof.
  intros Hj.
  apply (lanes16_u16 (fun j => to_u16 (Z.lnot (u16 a j))) j Hj), to_u16_bounds.
Qed.

Lemma simd16uint16_eq_lanes (a b : simd16uint16) (j : nat) :
  (j < 16)%nat ->
  u16 (simd16uint16_eq a b) j = if u16 a j =? u16 b j then 0xFFFF else 0.
Proof.
  intros Hj.
  unfold simd16uint16_eq, simd16uint16_of_simd256bit, simd16uint16_binary_func.
  rewrite (lanes16_u16
             (fun j => to_u16 (if u16 a j =? u16 b j then 65535 else 0)) j Hj)
    by apply to_u16_bounds.
  destruct (u16 a j =? u16 b j); reflexivity.
Qed.

(** equality of 16-bit values, bit by bit *)
Ltac u16_bits :=
  unfold to_u16; apply Z.bits_inj';
  let k := fresh "k" in let Hk := fresh "Hk" in
  intros k Hk;
  repeat first [rewrite Z.testbit_mod_pow2 by lia
               |rewrite Z.lnot_spec by lia
               |rewrite Z.land_spec
               |rewrite Z.lor_spec];
  destruct (k <? 16);
  repeat match goal with
         | |- context [Z.testbit ?x k] => destruct (Z.testbit x k)
         end; reflexivity.

(** X6: the elementwise [+] is commutative and associative, and the register of
    zeros is neutral for it: the 16 lanes form the integers modulo 2^16. *)
Theorem simd16uint16_add_monoid (a b c : simd16uint16) :
  simd16uint16_add a b = simd16uint16_add b a /\
  simd16uint16_add (simd16uint16_add a b) c
    = simd16uint16_add a (simd16uint16_add b c) /\
  (well_formed a = true ->
   simd16uint16_add a (simd16uint16_of_int 0) = a /\
   simd16uint16_add (simd16uint16_of_int 0) a = a).
Proof.
  split; [|split].
  - apply lanes16_ext. intros j Hj. rewrite Z.add_comm. reflexivity.
  - apply lanes16_ext. intros j Hj. rewrite !simd16uint16_add_lanes by exact Hj.
    unfold to_u16. div_lia.
  - intros Ha. split; apply (lanes16_reg _ a Ha); intros j Hj;
      rewrite simd16uint16_of_int_lanes by exact Hj;
      pose proof (u16_bounds a j Ha Hj); unfold to_u16; div_lia.
Qed.

(** X7: the elementwise [-] adds the two's complement: [a - b] is
    [a + (~b + 1)]; [a - a] is the register of zeros and [(a - b) + b] gives
    [a] back. *)
Theorem simd16uint16_sub_complement (a b : simd16uint16) :
  simd16uint16_sub a b
    = simd16uint16_add a (simd16uint16_add (simd16uint16_not b)
                                            (simd16uint16_of_int 1)) /\
  simd16uint16_sub a a = simd16uint16_of_int 0 /\
  (well_formed a = true ->
   simd16uint16_add (simd16uint16_sub a b) b = a).
Proof.
  split; [|split].
  - apply lanes16_ext. intros j Hj.
    rewrite simd16uint16_add_lanes, simd16uint16_not_lanes,
      simd16uint16_of_int_lanes by exact Hj.
    unfold to_u16, Z.lnot. div_lia.
  - unfold simd16uint16_of_int, simd16uint16_set1. apply lanes16_ext.
    intros j Hj. rewrite Z.sub_diag. reflexivity.
  - intros Ha. apply (lanes16_reg _ a Ha). intros j Hj.
    rewrite simd16uint16_sub_lanes by exact Hj.
    pose proof (u16_bounds a j Ha Hj). unfold to_u16. div_lia.
Qed.

(** X8: [~] complements the 16 bits of every lane: the lane becomes
    [0xFFFF - a[j]], [~~a] is [a], and [a + ~a] is the register of
    [0xFFFF]. *)
Theorem simd16uint16_not_involutive (a : simd16uint16) :
  well_formed a = true ->
  (forall j, (j < 16)%nat -> u16 (simd16uint16_not a) j = 0xFFFF - u16 a j) /\
  simd16uint16_not (simd16uint16_not a) = a /\
  simd16uint16_add a (simd16uint16_not a) = simd16uint16_of_int 0xFFFF.
Proof.
  intros Ha.
  assert (forall j, (j < 16)%nat ->
            u16 (simd16uint16_not a) j = 0xFFFF - u16 a j) as Hn.
  { intros j Hj. rewrite simd16uint16_not_lanes by exact Hj.
    pose proof (u16_bounds a j Ha Hj). unfold to_u16, Z.lnot. div_lia. }
  split; [exact Hn|split].
  - apply (lanes16_reg _ a Ha). intros j Hj. rewrite Hn by exact Hj.
    pose proof (u16_bounds a j Ha Hj). unfold to_u16, Z.lnot. div_lia.
  - unfold simd16uint16_of_int, simd16uint16_set1. apply lanes16_ext.
    intros j Hj. rewrite Hn by exact Hj. f_equal. lia.
Qed.

(** X9: [&] and [|] act on the bits of each lane; they are commutative and
    idempotent, and [~] exchanges them (De Morgan). *)
Theorem simd16uint16_and_or_not (a b : simd16uint16) :
  (forall j, (j < 16)%nat ->
    (forall k, 0 <= k < 16 ->
      Z.testbit (u16 (simd16uint16_and a b) j) k
        = Z.testbit (u16 a j) k && Z.testbit (u16 b j) k) /\
    (forall k, 0 <= k < 16 ->
      Z.testbit (u16 (simd16uint16_or a b) j) k
        = Z.testbit (u16 a j) k || Z.testbit (u16 b j) k)) /\
  simd16uint16_and a b = simd16uint16_and b a /\
  simd16uint16_or a b = simd16uint16_or b a /\
  simd16uint16_not (simd16uint16_and a b)
    = simd16uint16_or (simd16uint16_not a) (simd16uint16_not b) /\
  simd16uint16_not (simd16uint16_or a b)
    = simd16uint16_and (simd16uint16_not a) (simd16uint16_not b) /\
  (well_formed a = true ->
   simd16uint16_and a a = a /\ simd16uint16_or a a = a).
Proof.
  split; [|split; [|split; [|split; [|split]]]].
  - intros j Hj. split; intros k Hk.
    + rewrite simd16uint16_and_lanes by exact Hj. unfold to_u16.
      rewrite Z.testbit_mod_pow2, Z.land_spec by lia.
      rewrite (proj2 (Z.ltb_lt k 16)) by lia. reflexivity.
    + rewrite simd16uint16_or_lanes by exact Hj. unfold to_u16.
      rewrite Z.testbit_mod_pow2, Z.lor_spec by lia.
      rewrite (proj2 (Z.ltb_lt k 16)) by lia. reflexivity.
  - apply lanes16_ext. intros j Hj. unfold simd16uint16_of_simd256bit.
    rewrite Z.land_comm. reflexivity.
  - apply lanes16_ext. intros j Hj. unfold simd16uint16_of_simd256bit.
    rewrite Z.lor_comm. reflexivity.
  - apply lanes16_ext. intros j Hj. unfold simd16uint16_of_simd256bit.
    rewrite simd16uint16_and_lanes, !simd16uint16_not_lanes by exact Hj.
    u16_bits.
  - apply lanes16_ext. intros j Hj. unfold simd16uint16_of_simd256bit.
    rewrite simd16uint16_or_lanes, !simd16uint16_not_lanes by exact Hj.
    u16_bits.
  - intros Ha. split; apply (lanes16_reg _ a Ha); intros j Hj;
      unfold simd16uint16_of_simd256bit;
      rewrite ?Z.land_diag, ?Z.lor_diag;
      apply Z.mod_small, (u16_bounds a j Ha Hj).
Qed.

(** X10: [==] sets a lane to [0xFFFF] where the operands hold equal values and
    to 0 elsewhere; it is symmetric, and it gives the register of [0xFFFF]
    exactly for equal registers. *)
Theorem simd16uint16_eq_mask (a b : simd16uint16) :
  well_formed a = true -> well_formed b = true ->
  (forall j, (j < 16)%nat ->
    u16 (simd16uint16_eq a b) j = if u16 a j =? u16 b j then 0xFFFF else 0) /\
  simd16uint16_eq a b = simd16uint16_eq b a /\
  (simd16uint16_eq a b = simd16uint16_of_int 0xFFFF <-> a = b).
Proof.
  intros Ha Hb. split; [|split].
  - intros j Hj. apply simd16uint16_eq_lanes, Hj.
  - apply lanes16_ext. intros j Hj. unfold simd16uint16_of_simd256bit.
    rewrite (Z.eqb_sym (u16 a j)). reflexivity.
  - split.
    + intros He. rewrite <- (lanes16_reg (fun j => u16 a j) a Ha) by reflexivity.
      apply (lanes16_reg _ b Hb). intros j Hj.
      apply (f_equal (fun r => u16 r j)) in He.
      rewrite simd16uint16_eq_lanes, simd16uint16_of_int_lanes in He by exact Hj.
      destruct (Z.eqb_spec (u16 a j) (u16 b j)); [assumption|discriminate He].
    + intros <-. unfold simd16uint16_of_int, simd16uint16_set1.
      apply lanes16_ext. intros j Hj. rewrite Z.eqb_refl. reflexivity.
Qed.

(** ** simd16uint16: shifts *)

Lemma simd16uint16_unary_func_lanes (a : simd16uint16) (f : Z -> Z) (j : nat) :
  (j < 16)%nat -> 0 <= f (u16 a j) < 2 ^ 16 ->
  u16 (simd16uint16_unary_func a f) j = f (u16 a j).
Proof. intros Hj Hf. apply (lanes16_u16 (fun j => f (u16 a j)) j Hj Hf). Qed.

Lemma to_u16_shiftr (x : Z) (s : nat) :
  0 <= x < 2 ^ 16 -> to_u16 (Z.shiftr x (Z.of_nat s)) = x / 2 ^ Z.of_nat s.
Proof.
  intros Hx. rewrite Z.shiftr_div_pow2 by lia.
  assert (0 < 2 ^ Z.of_nat s) as Hp by (apply Z.pow_pos_nonneg; lia).
  apply Z.mod_small. split; [apply Z.div_pos; lia|].
  apply Z.div_lt_upper_bound; [lia|]. nia.
Qed.

Lemma to_u16_int_shl (x : Z) (s : nat) :
  to_u16 (int_shl x s) = (x * 2 ^ Z.of_nat s) mod 2 ^ 16.
Proof.
  unfold int_shl, to_i32, to_u16. rewrite Z.shiftl_mul_pow2 by lia.
  generalize (x * 2 ^ Z.of_nat s). intros y. div_lia.
Qed.

Lemma simd16uint16_shr_lanes (a : simd16uint16) (s j : nat) :
  well_formed a = true -> (j < 16)%nat ->
  u16 (simd16uint16_shr a s) j = u16 a j / 2 ^ Z.of_nat s.
Proof.
  intros Ha Hj. unfold simd16uint16_shr.
  rewrite simd16uint16_unary_func_lanes by (try apply to_u16_bounds; exact Hj).
  apply to_u16_shiftr, u16_bounds; assumption.
Qed.

Lemma simd16uint16_shl_lanes (a : simd16uint16) (s j : nat) :
  (j < 16)%nat ->
  u16 (simd16uint16_shl a s) j = (u16 a j * 2 ^ Z.of_nat s) mod 2 ^ 16.
Proof.
  intros Hj. unfold simd16uint16_shl.
  rewrite simd16uint16_unary_func_lanes by (try apply to_u16_bounds; exact Hj).
  apply to_u16_int_shl.
Qed.

Lemma simd16uint16_shr_wf (a : simd16uint16) (s : nat) :
  well_formed (simd16uint16_shr a s) = true.
Proof. apply lanes16_wf. intros j Hj. apply to_u16_bounds. Qed.

(** X11: for a shift [s] below 16, [>>] divides every lane by [2^s] and [<<]
    multiplies it by [2^s] modulo 2^16; [(a >> s) << s] clears the [s] low
    bits of every lane and [(a << s) >> s] its [s] high bits; a shift by 0
    changes nothing. *)
Theorem simd16uint16_shift_lanes (a : simd16uint16) (s : nat) :
  well_formed a = true -> (s < 16)%nat ->
  (forall j, (j < 16)%nat ->
    u16 (simd16uint16_shr a s) j = u16 a j / 2 ^ Z.of_nat s /\
    u16 (simd16uint16_shl a s) j = (u16 a j * 2 ^ Z.of_nat s) mod 2 ^ 16 /\
    u16 (simd16uint16_shl (simd16uint16_shr a s) s) j
      = u16 a j - u16 a j mod 2 ^ Z.of_nat s /\
    u16 (simd16uint16_shr (simd16uint16_shl a s) s) j
      = u16 a j mod 2 ^ (16 - Z.of_nat s)) /\
  simd16uint16_shr a 0 = a /\ simd16uint16_shl a 0 = a.
Proof.
  intros Ha Hs. split; [|split].
  - intros j Hj. pose proof (u16_bounds a j Ha Hj) as Hx.
    assert (0 < 2 ^ Z.of_nat s) as Hp by (apply Z.pow_pos_nonneg; lia).
    split; [apply simd16uint16_shr_lanes; assumption|].
    split; [apply simd16uint16_shl_lanes; assumption|]. split.
    + rewrite simd16uint16_shl_lanes, simd16uint16_shr_lanes by assumption.
      pose proof (Z.div_mod (u16 a j) (2 ^ Z.of_nat s) ltac:(lia)) as Hd.
      pose proof (Z.mod_pos_bound (u16 a j) (2 ^ Z.of_nat s) Hp) as Hm.
      rewrite Z.mod_small; nia.
    + rewrite simd16uint16_shr_lanes, simd16uint16_shl_lanes
        by (try apply lanes16_wf; try (intros; apply to_u16_bounds); assumption).
      replace (2 ^ 16) with (2 ^ (16 - Z.of_nat s) * 2 ^ Z.of_nat s)
        by (rewrite <- Z.pow_add_r by lia; f_equal; lia).
      rewrite Z.mul_mod_distr_r, Z.div_mul by lia. reflexivity.
  - apply (lanes16_reg _ a Ha). intros j Hj.
    rewrite to_u16_shiftr by (apply u16_bounds; assumption).
    apply Z.div_1_r.
  - apply (lanes16_reg _ a Ha). intros j Hj.
    rewrite to_u16_int_shl. rewrite Z.mul_1_r.
    apply Z.mod_small, u16_bounds; assumption.
Qed.

(** X12: two shifts in the same direction add up, as long as the total stays
    below 16. *)
Theorem simd16uint16_shift_compose (a : simd16uint16) (s t : nat) :
  well_formed a = true -> (s + t < 16)%nat ->
  simd16uint16_shr (simd16uint16_shr a s) t = simd16uint16_shr a (s + t) /\
  simd16uint16_shl (simd16uint16_shl a s) t = simd16uint16_shl a (s + t).
Proof.
  intros Ha Hst. split; apply lanes16_ext; intros j Hj.
  - rewrite simd16uint16_shr_lanes by assumption.
    pose proof (u16_bounds a j Ha Hj) as Hx.
    assert (0 < 2 ^ Z.of_nat s) as Hp by (apply Z.pow_pos_nonneg; lia).
    rewrite !to_u16_shiftr; try assumption.
    + rewrite Z.div_div, <- Z.pow_add_r by lia. do 2 f_equal. lia.
    + split; [apply Z.div_pos; lia|].
      apply Z.div_lt_upper_bound; [lia|]. nia.
  - rewrite simd16uint16_shl_lanes by assumption.
    rewrite !to_u16_int_shl.
    rewrite Z.mul_mod_idemp_l, <- Z.mul_assoc, <- Z.pow_add_r by lia.
    do 3 f_equal. lia.
Qed.

(** ** simd16uint16: minimum and maximum *)

Lemma std_min_bounds (x y : Z) :
  0 <= x < 2 ^ 16 -> 0 <= y < 2 ^ 16 -> 0 <= std_min x y < 2 ^ 16.
Proof. intros Hx Hy. unfold std_min. destruct (y <? x); assumption. Qed.

Lemma std_max_bounds (x y : Z) :
  0 <= x < 2 ^ 16 -> 0 <= y < 2 ^ 16 -> 0 <= std_max x y < 2 ^ 16.
Proof. intros Hx Hy. unfold std_max. destruct (x <? y); assumption. Qed.

Lemma std_min_min (x y : Z) : std_min x y = Z.min x y.
Proof. unfold std_min. destruct (Z.ltb_spec y x); lia. Qed.

Lemma std_max_max (x y : Z) : std_max x y = Z.max x y.
Proof. unfold std_max. destruct (Z.ltb_spec x y); lia. Qed.

Lemma min_lanes (a b : simd16uint16) (j : nat) :
  well_formed a = true -> well_formed b = true -> (j < 16)%nat ->
  u16 (min a b) j = Z.min (u16 a j) (u16 b j).
Proof.
  intros Ha Hb Hj. rewrite <- std_min_min.
  apply (lanes16_u16 (fun j => std_min (u16 a j) (u16 b j)) j Hj).
  apply std_min_bounds; apply u16_bounds; assumption.
Qed.

Lemma max_lanes (a b : simd16uint16) (j : nat) :
  well_formed a = true -> well_formed b = true -> (j < 16)%nat ->
  u16 (max a b) j = Z.max (u16 a j) (u16 b j).
Proof.
  intros Ha Hb Hj. rewrite <- std_max_max.
  apply (lanes16_u16 (fun j => std_max (u16 a j) (u16 b j)) j Hj).
  apply std_max_bounds; apply u16_bounds; assumption.
Qed.

Lemma min_wf (a b : simd16uint16) :
  well_formed a = true -> well_formed b = true -> well_formed (min a b) = true.
Proof.
  intros Ha Hb. apply lanes16_wf. intros j Hj.
  apply std_min_bounds; apply u16_bounds; assumption.
Qed.

Lemma max_wf (a b : simd16uint16) :
  well_formed a = true -> well_formed b = true -> well_formed (max a b) = true.
Proof.
  intros Ha Hb. apply lanes16_wf. intros j Hj.
  apply std_max_bounds; apply u16_bounds; assumption.
Qed.

Lemma ge_mask_full (x y : simd16uint16) :
  ge_mask x y = 0xFFFFFFFF <-> forall j, (j < 16)%nat -> u16 y j <= u16 x j.
Proof.
  destruct (ge_mask_bits x y) as [_ Hk]. split.
  - intros Hf j Hj. specialize (Hk (Z.of_nat (2 * j)) ltac:(lia)).
    rewrite Hf in Hk. change 0xFFFFFFFF with (Z.ones 32) in Hk.
    rewrite Z.testbit_ones_nonneg in Hk by lia.
    replace (Z.to_nat (Z.of_nat (2 * j) / 2)) with j in Hk by div_lia.
    rewrite (proj2 (Z.ltb_lt _ 16)), (proj2 (Z.ltb_lt _ 32)) in Hk by div_lia.
    rewrite Z.geb_leb in Hk. symmetry in Hk. apply Z.leb_le in Hk. exact Hk.
  - intros Hle. apply Z.bits_inj'. intros k Hk0. rewrite Hk by lia.
    change 0xFFFFFFFF with (Z.ones 32).
    rewrite Z.testbit_ones_nonneg, lt_32_half by lia.
    destruct (Z.ltb_spec k 32); [|reflexivity]. simpl.
    rewrite Z.geb_leb. apply Z.leb_le, Hle. div_lia.
Qed.

(** X13: [min] and [max] give in every lane the smaller and the larger of the
    two values; they are commutative and idempotent, absorb each other, and
    their sum is the sum of the operands. *)
Theorem min_max_lattice (a b : simd16uint16) :
  well_formed a = true -> well_formed b = true ->
  (forall j, (j < 16)%nat ->
    u16 (min a b) j = Z.min (u16 a j) (u16 b j) /\
    u16 (max a b) j = Z.max (u16 a j) (u16 b j)) /\
  min a b = min b a /\ max a b = max b a /\
  min a a = a /\ max a a = a /\
  min a (max a b) = a /\ max a (min a b) = a /\
  simd16uint16_add (min a b) (max a b) = simd16uint16_add a b.
Proof.
  intros Ha Hb.
  split; [intros j Hj; split; [apply min_lanes|apply max_lanes]; assumption|].
  split; [apply lanes16_ext; intros j Hj; rewrite !std_min_min; lia|].
  split; [apply lanes16_ext; intros j Hj; rewrite !std_max_max; lia|].
  split; [apply (lanes16_reg _ a Ha); intros j Hj; rewrite std_min_min; lia|].
  split; [apply (lanes16_reg _ a Ha); intros j Hj; rewrite std_max_max; lia|].
  split; [|split].
  - apply (lanes16_reg _ a Ha). intros j Hj.
    rewrite std_min_min, max_lanes by assumption. lia.
  - apply (lanes16_reg _ a Ha). intros j Hj.
    rewrite std_max_max, min_lanes by assumption. lia.
  - apply lanes16_ext. intros j Hj.
    rewrite min_lanes, max_lanes by assumption. f_equal. lia.
Qed.

(** X14: [min(a, b)] is below [a] and [b] and [max(a, b)] above them in every
    lane, as [ge_mask] sees it: the masks are full. *)
Theorem min_max_bounds (a b : simd16uint16) :
  well_formed a = true -> well_formed b = true ->
  ge_mask a (min a b) = 0xFFFFFFFF /\ ge_mask b (min a b) = 0xFFFFFFFF /\
  ge_mask (max a b) a = 0xFFFFFFFF /\ ge_mask (max a b) b = 0xFFFFFFFF /\
  ge_mask (max a b) (min a b) = 0xFFFFFFFF.
Proof.
  intros Ha Hb. repeat split; apply ge_mask_full; intros j Hj;
    rewrite ?min_lanes, ?max_lanes by assumption; lia.
Qed.

Lemma accu_min_receiver (a b : simd16uint16) :
  well_formed a = true -> accu_min a b = (min a b, b).
Proof.
  intros Ha. destruct (well_formed_spec a Ha) as [Hla _].
  destruct (accu_loop Z.ltb a b 16) as (Hs & Hl & Hk); [lia|exact Hla|].
  fold (accu_min a b) in Hs, Hl, Hk.
  rewrite (surjective_pairing (accu_min a b)), Hs. f_equal.
  destruct (lanes16_bytes (fun j => std_min (u16 a j) (u16 b j))) as [Hl' Hk'].
  apply simd256bit_ext; [exact Hl|exact Hl'|]. intros k Hk32. symmetry.
  unfold min, simd16uint16_binary_func. rewrite Hk, Hk' by exact Hk32.
  unfold std_min.
  rewrite (proj2 (Nat.ltb_lt (k / 2) 16)), andb_true_l by div_lia.
  destruct (u16 b (k / 2) <? u16 a (k / 2)); [reflexivity|].
  apply u16_byte_u16_wf; assumption.
Qed.

Lemma accu_max_receiver (a b : simd16uint16) :
  well_formed a = true -> accu_max a b = (max a b, b).
Proof.
  intros Ha. destruct (well_formed_spec a Ha) as [Hla _].
  destruct (accu_loop Z.gtb a b 16) as (Hs & Hl & Hk); [lia|exact Hla|].
  fold (accu_max a b) in Hs, Hl, Hk.
  rewrite (surjective_pairing (accu_max a b)), Hs. f_equal.
  destruct (lanes16_bytes (fun j => std_max (u16 a j) (u16 b j))) as [Hl' Hk'].
  apply simd256bit_ext; [exact Hl|exact Hl'|]. intros k Hk32. symmetry.
  unfold max, simd16uint16_binary_func. rewrite Hk, Hk' by exact Hk32.
  unfold std_max.
  rewrite (proj2 (Nat.ltb_lt (k / 2) 16)), andb_true_l by div_lia.
  rewrite Z.gtb_ltb.
  destruct (u16 a (k / 2) <? u16 b (k / 2)); [reflexivity|].
  apply u16_byte_u16_wf; assumption.
Qed.

(** X15: accumulating two registers one after the other is accumulating their
    [min] (resp. [max]) once, in either order, and accumulating the same
    register twice changes nothing more; the accumulator of [accu_min] never
    grows and the one of [accu_max] never shrinks. *)
Theorem accu_min_max_fold (a b c : simd16uint16) :
  well_formed a = true -> well_formed b = true -> well_formed c = true ->
  let acc_min x y := fst (accu_min x y) in
  let acc_max x y := fst (accu_max x y) in
  acc_min (acc_min a b) c = acc_min a (min b c) /\
  acc_min (acc_min a b) c = acc_min (acc_min a c) b /\
  acc_min (acc_min a b) b = acc_min a b /\
  acc_max (acc_max a b) c = acc_max a (max b c) /\
  acc_max (acc_max a b) c = acc_max (acc_max a c) b /\
  acc_max (acc_max a b) b = acc_max a b /\
  ge_mask a (acc_min a b) = 0xFFFFFFFF /\
  ge_mask (acc_max a b) a = 0xFFFFFFFF.
Proof.
  intros Ha Hb Hc acc_min acc_max. subst acc_min acc_max. cbv beta.
  rewrite !(accu_min_receiver a), !(accu_max_receiver a) by assumption.
  cbn [fst].
  rewrite !accu_min_receiver, !accu_max_receiver
    by (try apply min_wf; try apply max_wf; assumption).
  cbn [fst].
  split; [|split; [|split; [|split; [|split; [|split; [|split]]]]]].
  - apply lanes16_ext. intros j Hj.
    rewrite !min_lanes, !std_min_min by assumption. lia.
  - apply lanes16_ext. intros j Hj.
    rewrite !min_lanes, !std_min_min by assumption. lia.
  - apply (lanes16_reg _ (min a b) (min_wf a b Ha Hb)). intros j Hj.
    rewrite !min_lanes, !std_min_min by assumption. lia.
  - apply lanes16_ext. intros j Hj.
    rewrite !max_lanes, !std_max_max by assumption. lia.
  - apply lanes16_ext. intros j Hj.
    rewrite !max_lanes, !std_max_max by assumption. lia.
  - apply (lanes16_reg _ (max a b) (max_wf a b Ha Hb)). intros j Hj.
    rewrite !max_lanes, !std_max_max by assumption. lia.
  - apply ge_mask_full. intros j Hj. rewrite min_lanes by assumption. lia.
  - apply ge_mask_full. intros j Hj. rewrite max_lanes by assumption. lia.
Qed.

(** ** combine2x2 and addition *)

Lemma combine2x2_lanes (a b : simd16uint16) (j : nat) :
  (j < 8)%nat ->
  u16 (combine2x2 a b) j = to_u16 (u16 a j + u16 a (j + 8)) /\
  u16 (combine2x2 a b) (j + 8) = to_u16 (u16 b j + u16 b (j + 8)).
Proof.
  intros Hj. destruct (combine2x2_bytes a b) as [_ Hk]. unfold u16 at 1 4.
  rewrite !Hk by lia.
  replace ((2 * j) / 2)%nat with j by div_lia.
  replace ((2 * j + 1) / 2)%nat with j by div_lia.
  replace ((2 * (j + 8)) / 2)%nat with (j + 8)%nat by div_lia.
  replace ((2 * (j + 8) + 1) / 2)%nat with (j + 8)%nat by div_lia.
  rewrite (proj2 (Nat.ltb_lt j 8)), (proj2 (Nat.ltb_ge (j + 8) 8)) by lia.
  replace (j + 8 - 8)%nat with j by lia.
  split; apply u16_byte_combine, to_u16_bounds.
Qed.

(** X16: [combine2x2] commutes with the elementwise addition: folding the sums
    of two pairs of accumulators is adding their folds. The low half of the
    result depends on the first operand only and the high half on the second
    only. *)
Theorem combine2x2_additive (a a' b b' : simd16uint16) :
  combine2x2 (simd16uint16_add a a') (simd16uint16_add b b')
    = simd16uint16_add (combine2x2 a b) (combine2x2 a' b') /\
  (forall j, (j < 8)%nat ->
    u16 (combine2x2 a b) j = u16 (combine2x2 a b') j /\
    u16 (combine2x2 a b) (j + 8) = u16 (combine2x2 a' b) (j + 8)).
Proof.
  split.
  - destruct (combine2x2_bytes (simd16uint16_add a a') (simd16uint16_add b b'))
      as [Hl Hk].
    destruct (lanes16_bytes
                (fun j => to_u16 (u16 (combine2x2 a b) j
                                  + u16 (combine2x2 a' b') j))) as [Hl' Hk'].
    apply simd256bit_ext; [exact Hl|exact Hl'|]. intros k Hk32.
    unfold simd16uint16_add at 3. unfold simd16uint16_binary_func.
    rewrite Hk, Hk' by exact Hk32. f_equal.
    destruct (Nat.ltb_spec (k / 2) 8) as [Hlo|Hhi].
    + destruct (combine2x2_lanes a b (k / 2) Hlo) as [-> _].
      destruct (combine2x2_lanes a' b' (k / 2) Hlo) as [-> _].
      rewrite !simd16uint16_add_lanes by lia. unfold to_u16. div_lia.
    + assert (k / 2 - 8 < 8)%nat as Hq by div_lia.
      destruct (combine2x2_lanes a b (k / 2 - 8) Hq) as [_ Hc].
      destruct (combine2x2_lanes a' b' (k / 2 - 8) Hq) as [_ Hc'].
      replace (k / 2)%nat with (k / 2 - 8 + 8)%nat at 3 4 by lia.
      rewrite Hc, Hc', !simd16uint16_add_lanes by lia.
      unfold to_u16. div_lia.
  - intros j Hj.
    destruct (combine2x2_lanes a b j Hj) as [-> ->].
    destruct (combine2x2_lanes a b' j Hj) as [-> _].
    destruct (combine2x2_lanes a' b j Hj) as [_ ->]. split; reflexivity.
Qed.

(** ** Broadcasts *)

Lemma for_loop_set_f32 (g : nat -> Z) n (c : simd256bit) :
  (4 * n <= length c)%nat ->
  let r := for_loop n (fun j c => set_f32 j (g j) c) c in
  length r = length c /\
  forall k, u8 r k = if (k / 4 <? n)%nat then f32_byte (g (k / 4)%nat) k
                     else u8 c k.
Proof.
  intros Hn. induction n as [|n IH]; cbv zeta.
  - split; [reflexivity|]. intros k. reflexivity.
  - destruct IH as [IHl IHk]; [lia|]. rewrite for_loop_S. split.
    + rewrite length_set_f32. exact IHl.
    + intros k. rewrite u8_set_f32 by lia. case_decide as Hkn.
      * rewrite Hkn, (proj2 (Nat.ltb_lt _ _)) by lia. reflexivity.
      * rewrite IHk. destruct (Nat.ltb_spec (k / 4) n),
          (Nat.ltb_spec (k / 4) (S n)); try reflexivity; lia.
Qed.

Lemma simd32uint8_of_int_bytes (x : Z) :
  length (simd32uint8_of_int x) = 32%nat /\
  forall k, (k < 32)%nat -> u8 (simd32uint8_of_int x) k = to_u8 x.
Proof.
  destruct (for_loop_set_u8 (fun _ => to_u8 x) 32 indeterminate)
    as [Hl Hk]; [lia|].
  split; [unfold simd32uint8_of_int, simd32uint8_set1; congruence|].
  intros k Hk32. unfold simd32uint8_of_int, simd32uint8_set1. rewrite Hk.
  rewrite (proj2 (Nat.ltb_lt _ _) Hk32). reflexivity.
Qed.

Lemma f32_byte_broadcast (c : Z) (k : nat) :
  0 <= c < 2 ^ 8 -> f32_byte (to_u32 (0x01010101 * c)) k = c.
Proof.
  intros Hc. unfold f32_byte, to_u32.
  assert (k mod 4 = 0 \/ k mod 4 = 1 \/ k mod 4 = 2 \/ k mod 4 = 3)%nat
    as [Hm|[Hm|[Hm|Hm]]] by div_lia; rewrite Hm; div_lia.
Qed.

Lemma u16_byte_broadcast (c : Z) (k : nat) :
  0 <= c < 2 ^ 8 -> u16_byte (to_u16 (0x0101 * c)) k = c.
Proof.
  intros Hc. unfold u16_byte, to_u16. destruct (Nat.even k); div_lia.
Qed.

Lemma simd8uint32_set1_bytes (y : Z) (c : simd256bit) :
  length c = 32%nat ->
  length (simd8uint32_set1 y c) = 32%nat /\
  forall k, (k < 32)%nat -> u8 (simd8uint32_set1 y c) k = f32_byte y k.
Proof.
  intros Hc.
  destruct (for_loop_set_f32 (fun _ => y) 8 c ltac:(lia)) as [Hl Hk].
  change (for_loop 8 (fun j c => set_f32 j y c) c)
    with (simd8uint32_set1 y c) in Hl, Hk.
  split; [congruence|]. intros k Hk32.
  rewrite Hk, (proj2 (Nat.ltb_lt _ _)) by div_lia. reflexivity.
Qed.

(** X17: [set1] overwrites the whole register, whatever it held, and every lane
    reads the value back. The three integer broadcasts agree on the bytes:
    a byte [c] broadcast to the 32 bytes is [0x0101 * c] broadcast to the 16
    lanes of 16 bits and [0x01010101 * c] broadcast to the 8 lanes of 32
    bits. *)
Theorem set1_views (x : Z) (r : simd256bit) :
  length r = 32%nat ->
  simd16uint16_set1 (to_u16 x) r = simd16uint16_of_int x /\
  simd32uint8_set1 (to_u8 x) r = simd32uint8_of_int x /\
  simd8uint32_set1 (to_u32 x) r = simd8uint32_of_uint32 x /\
  (forall j, (j < 16)%nat -> u16 (simd16uint16_of_int x) j = x mod 2 ^ 16) /\
  get_scalar_0 (simd16uint16_of_int x) = x mod 2 ^ 16 /\
  (forall j, (j < 32)%nat -> u8 (simd32uint8_of_int x) j = x mod 2 ^ 8) /\
  (forall j, (j < 8)%nat -> u32 (simd8uint32_of_uint32 x) j = x mod 2 ^ 32) /\
  simd16uint16_of_int (0x0101 * to_u8 x) = simd32uint8_of_int x /\
  simd8uint32_of_uint32 (0x01010101 * to_u8 x) = simd32uint8_of_int x.
Proof.
  intros Hr.
  destruct (simd16uint16_set1_bytes (to_u16 x) r Hr) as [Hl16 Hk16].
  destruct (simd16uint16_set1_bytes (to_u16 x) indeterminate indeterminate_size)
    as [Hl16' Hk16'].
  destruct (for_loop_set_u8 (fun _ => to_u8 x) 32 r ltac:(lia)) as [Hl8 Hk8].
  fold (simd32uint8_set1 (to_u8 x) r) in Hl8, Hk8. rewrite Hr in Hl8.
  destruct (simd32uint8_of_int_bytes x) as [Hl8' Hk8'].
  pose proof simd8uint32_set1_bytes as H32.
  destruct (H32 (to_u32 x) r Hr) as [Hl32 Hk32].
  destruct (H32 (to_u32 x) indeterminate indeterminate_size) as [Hl32' Hk32'].
  fold (simd8uint32_of_uint32 x) in Hl32', Hk32'.
  split; [|split; [|split; [|split; [|split; [|split; [|split; [|split]]]]]]].
  - apply simd256bit_ext; [exact Hl16|exact Hl16'|]. intros k Hk.
    unfold simd16uint16_of_int. rewrite Hk16, Hk16' by exact Hk. reflexivity.
  - apply simd256bit_ext; [exact Hl8|exact Hl8'|]. intros k Hk.
    rewrite Hk8, Hk8', (proj2 (Nat.ltb_lt _ _) Hk) by exact Hk. reflexivity.
  - apply simd256bit_ext; [exact Hl32|exact Hl32'|]. intros k Hk.
    rewrite Hk32, Hk32' by exact Hk. reflexivity.
  - intros j Hj. apply simd16uint16_of_int_lanes, Hj.
  - apply simd16uint16_of_int_lanes. lia.
  - intros j Hj. apply Hk8', Hj.
  - intros j Hj. unfold u32. rewrite !Hk32' by lia.
    apply f32_byte_combine. unfold to_u32. apply Z.mod_pos_bound. lia.
  - destruct (simd16uint16_set1_bytes (to_u16 (0x0101 * to_u8 x)) indeterminate
                indeterminate_size) as [Hla Hka].
    apply simd256bit_ext; [exact Hla|exact Hl8'|]. intros k Hk.
    unfold simd16uint16_of_int at 1. rewrite Hka, Hk8' by exact Hk.
    apply u16_byte_broadcast. unfold to_u8. apply Z.mod_pos_bound. lia.
  - destruct (H32 (to_u32 (0x01010101 * to_u8 x)) indeterminate
                indeterminate_size) as [Hla Hka].
    apply simd256bit_ext; [exact Hla|exact Hl8'|]. intros k Hk.
    unfold simd8uint32_of_uint32 at 1. rewrite Hka, Hk8' by exact Hk.
    apply f32_byte_broadcast. unfold to_u8. apply Z.mod_pos_bound. lia.
Qed.

(** ** simd32uint8: table lookups *)

Lemma lookup_index_bound (x : Z) : (Z.to_nat (Z.land x 15) < 16)%nat.
Proof. pose proof (land_15_bounds x). lia. Qed.

(** X18: looking up the indices [0 .. 15] in both lanes gives the table back; an
    index vector with bit 7 set everywhere gives the register of zeros; a
    constant index [i] below 16 broadcasts byte [i] of each lane over that
    lane. *)
Theorem lookup_2_lanes_special (v idx : simd32uint8) (i : Z) :
  length v = 32%nat ->
  lookup_2_lanes v [0; 1; 2; 3; 4; 5; 6; 7; 8; 9; 10; 11; 12; 13; 14; 15;
                    0; 1; 2; 3; 4; 5; 6; 7; 8; 9; 10; 11; 12; 13; 14; 15] = v
  /\
  ((forall k, (k < 32)%nat -> Z.testbit (u8 idx k) 7 = true) ->
   lookup_2_lanes v idx = simd32uint8_of_int 0) /\
  (0 <= i < 16 ->
   forall j, (j < 16)%nat ->
     u8 (lookup_2_lanes v (simd32uint8_of_int i)) j = u8 v (Z.to_nat i) /\
     u8 (lookup_2_lanes v (simd32uint8_of_int i)) (16 + j)
       = u8 v (16 + Z.to_nat i)).
Proof.
  intros Hv. split; [|split].
  - destruct (lookup_2_lanes_bytes v
                [0; 1; 2; 3; 4; 5; 6; 7; 8; 9; 10; 11; 12; 13; 14; 15;
                 0; 1; 2; 3; 4; 5; 6; 7; 8; 9; 10; 11; 12; 13; 14; 15])
      as [Hl Hb].
    apply simd256bit_ext; [exact Hl|exact Hv|]. intros k Hk.
    rewrite Hb by exact Hk.
    do 32 (destruct k as [|k]; [reflexivity|]). lia.
  - intros H7. destruct (lookup_2_lanes_bytes v idx) as [Hl Hb].
    destruct (simd32uint8_of_int_bytes 0) as [Hl0 Hb0].
    apply simd256bit_ext; [exact Hl|exact Hl0|]. intros k Hk.
    rewrite Hb, Hb0, H7 by exact Hk. reflexivity.
  - intros Hi j Hj. destruct (lookup_2_lanes_bytes v (simd32uint8_of_int i))
      as [_ Hb].
    destruct (simd32uint8_of_int_bytes i) as [_ Hbi].
    assert (to_u8 i = i) as Hu by (unfold to_u8; apply Z.mod_small; lia).
    assert (Z.testbit i 7 = false) as H7.
    { rewrite <- (Z.mod_small i (2 ^ 4)) by lia.
      rewrite Z.testbit_mod_pow2 by lia. reflexivity. }
    assert (Z.land i 15 = i) as H15.
    { change 15 with (Z.ones 4). rewrite Z.land_ones by lia.
      apply Z.mod_small. lia. }
    rewrite !Hb, !Hbi, Hu, H7, H15 by lia.
    rewrite (proj2 (Nat.ltb_lt j 16)), (proj2 (Nat.ltb_ge (16 + j) 16)) by lia.
    split; reflexivity.
Qed.

Lemma land_mask_8F_bit7 (x : Z) :
  Z.testbit (to_u8 (Z.land x 0x8F)) 7 = Z.testbit x 7.
Proof.
  unfold to_u8. rewrite Z.testbit_mod_pow2, Z.land_spec by lia.
  change (Z.testbit 0x8F 7) with true. rewrite andb_true_r. reflexivity.
Qed.

Lemma land_mask_low (x m : Z) :
  Z.land m 15 = 15 -> Z.land (to_u8 (Z.land x m)) 15 = Z.land x 15.
Proof.
  intros Hm. unfold to_u8. rewrite <- Z.land_ones by lia.
  rewrite <- !Z.land_assoc. change (Z.land (Z.ones 8) 15) with 15.
  rewrite Hm. reflexivity.
Qed.

Lemma land_mask_0F_bit7 (x : Z) : Z.testbit (to_u8 (Z.land x 0x0F)) 7 = false.
Proof.
  unfold to_u8. rewrite Z.testbit_mod_pow2, Z.land_spec by lia.
  change (Z.testbit 0x0F 7) with false. rewrite andb_false_r. reflexivity.
Qed.

Lemma simd32uint8_and_bytes (a b : simd32uint8) :
  length (simd32uint8_and a b) = 32%nat /\
  forall k, (k < 32)%nat ->
    u8 (simd32uint8_and a b) k = to_u8 (Z.land (u8 a k) (u8 b k)).
Proof.
  apply (simd32uint8_binary_func_bytes a b (fun x y => to_u8 (Z.land x y))).
Qed.

(** X19: [lookup_2_lanes] reads bit 7 and the four low bits of an index and
    nothing else: masking the indices with [0x8F] changes no result. Masked
    with [0x0F], no index zeroes its byte: byte [j] of the result is the byte
    of the table at [idx[j] mod 16] in the lane of [j]. *)
Theorem lookup_2_lanes_masked (v idx : simd32uint8) :
  lookup_2_lanes v (simd32uint8_and idx (simd32uint8_of_int 0x8F))
    = lookup_2_lanes v idx /\
  (forall j, (j < 16)%nat ->
    u8 (lookup_2_lanes v (simd32uint8_and idx (simd32uint8_of_int 0x0F))) j
      = u8 v (Z.to_nat (u8 idx j mod 16)) /\
    u8 (lookup_2_lanes v (simd32uint8_and idx (simd32uint8_of_int 0x0F)))
       (16 + j)
      = u8 v (16 + Z.to_nat (u8 idx (16 + j) mod 16))).
Proof.
  destruct (lookup_2_lanes_bytes v idx) as [Hl Hb].
  destruct (simd32uint8_of_int_bytes 0x8F) as [_ H8F].
  destruct (simd32uint8_of_int_bytes 0x0F) as [_ H0F].
  split.
  - destruct (lookup_2_lanes_bytes v
                (simd32uint8_and idx (simd32uint8_of_int 0x8F))) as [Hl' Hb'].
    destruct (simd32uint8_and_bytes idx (simd32uint8_of_int 0x8F)) as [_ Ha].
    apply simd256bit_ext; [exact Hl'|exact Hl|]. intros k Hk.
    rewrite Hb', Hb, Ha, H8F by exact Hk.
    change (to_u8 0x8F) with 0x8F.
    rewrite land_mask_8F_bit7, land_mask_low by reflexivity. reflexivity.
  - intros j Hj.
    destruct (lookup_2_lanes_bytes v
                (simd32uint8_and idx (simd32uint8_of_int 0x0F))) as [_ Hb'].
    destruct (simd32uint8_and_bytes idx (simd32uint8_of_int 0x0F)) as [_ Ha].
    rewrite !Hb', !Ha, !H0F by lia. change (to_u8 0x0F) with 0x0F.
    rewrite !land_mask_0F_bit7, !land_mask_low by reflexivity.
    rewrite (proj2 (Nat.ltb_lt j 16)), (proj2 (Nat.ltb_ge (16 + j) 16)) by lia.
    change 15 with (Z.ones 4). rewrite !Z.land_ones by lia.
    split; reflexivity.
Qed.

(** X20: two lookups in a row are one lookup with the looked-up indices, when no
    index of the second lookup has bit 7 set:
    [v.lookup_2_lanes(i1).lookup_2_lanes(i2)] is
    [v.lookup_2_lanes(i1.lookup_2_lanes(i2))]. *)
Theorem lookup_2_lanes_compose (v i1 i2 : simd32uint8) :
  (forall k, (k < 32)%nat -> Z.testbit (u8 i2 k) 7 = false) ->
  lookup_2_lanes (lookup_2_lanes v i1) i2
    = lookup_2_lanes v (lookup_2_lanes i1 i2).
Proof.
  intros H7.
  destruct (lookup_2_lanes_bytes (lookup_2_lanes v i1) i2) as [Hl Hb].
  destruct (lookup_2_lanes_bytes v (lookup_2_lanes i1 i2)) as [Hl' Hb'].
  destruct (lookup_2_lanes_bytes v i1) as [_ Hv].
  destruct (lookup_2_lanes_bytes i1 i2) as [_ Hi].
  apply simd256bit_ext; [exact Hl|exact Hl'|]. intros k Hk.
  rewrite Hb, Hb', Hi, H7 by exact Hk.
  pose proof (lookup_index_bound (u8 i2 k)) as Hn.
  destruct (Nat.ltb_spec k 16).
  - rewrite Hv by lia. rewrite (proj2 (Nat.ltb_lt _ 16) Hn). reflexivity.
  - rewrite Hv by lia. rewrite (proj2 (Nat.ltb_ge _ 16)) by lia. reflexivity.
Qed.

(** X21: the bytewise [+] is commutative and associative with the register of
    zeros as neutral element, and [&] with the register of [0xFF] changes
    nothing. *)
Theorem simd32uint8_add_and (a b c : simd32uint8) :
  simd32uint8_add a b = simd32uint8_add b a /\
  simd32uint8_add (simd32uint8_add a b) c
    = simd32uint8_add a (simd32uint8_add b c) /\
  (well_formed a = true ->
   simd32uint8_add a (simd32uint8_of_int 0) = a /\
   simd32uint8_and a (simd32uint8_of_int 0xFF) = a).
Proof.
  destruct (simd32uint8_binary_func_bytes a b (fun x y => to_u8 (x + y)))
    as [Hlab Hab].
  destruct (simd32uint8_binary_func_bytes b a (fun x y => to_u8 (x + y)))
    as [Hlba Hba].
  destruct (simd32uint8_binary_func_bytes b c (fun x y => to_u8 (x + y)))
    as [Hlbc Hbc].
  destruct (simd32uint8_binary_func_bytes (simd32uint8_add a b) c
              (fun x y => to_u8 (x + y))) as [Hl1 H1].
  destruct (simd32uint8_binary_func_bytes a (simd32uint8_add b c)
              (fun x y => to_u8 (x + y))) as [Hl2 H2].
  fold (simd32uint8_add a b) in Hlab, Hab.
  fold (simd32uint8_add b a) in Hlba, Hba.
  fold (simd32uint8_add b c) in Hlbc, Hbc.
  fold (simd32uint8_add (simd32uint8_add a b) c) in Hl1, H1.
  fold (simd32uint8_add a (simd32uint8_add b c)) in Hl2, H2.
  split; [|split].
  - apply simd256bit_ext; [exact Hlab|exact Hlba|]. intros k Hk.
    rewrite Hab, Hba, Z.add_comm by exact Hk. reflexivity.
  - apply simd256bit_ext; [exact Hl1|exact Hl2|]. intros k Hk.
    rewrite H1, H2, Hab, Hbc by exact Hk. unfold to_u8. div_lia.
  - intros Ha. destruct (well_formed_spec a Ha) as [Hla Hra].
    destruct (simd32uint8_binary_func_bytes a (simd32uint8_of_int 0)
                (fun x y => to_u8 (x + y))) as [Hl0 H0].
    fold (simd32uint8_add a (simd32uint8_of_int 0)) in Hl0, H0.
    destruct (simd32uint8_and_bytes a (simd32uint8_of_int 0xFF)) as [Hlf Hf].
    destruct (simd32uint8_of_int_bytes 0) as [_ Hz].
    destruct (simd32uint8_of_int_bytes 0xFF) as [_ Hff].
    split; (apply simd256bit_ext; [assumption|exact Hla|]); intros k Hk.
    + rewrite H0, Hz by exact Hk. specialize (Hra k Hk). unfold to_u8. div_lia.
    + rewrite Hf, Hff by exact Hk. change (to_u8 0xFF) with (Z.ones 8).
      rewrite Z.land_ones by lia. specialize (Hra k Hk). unfold to_u8.
      rewrite Z.mod_mod by lia. apply Z.mod_small. lia.
Qed.

(** ** simd8float32: horizontal addition and interleaving *)

Lemma f32_byte_f32 (r : simd256bit) (k : nat) :
  well_formed r = true -> (k < 32)%nat -> f32_byte (f32 r (k / 4)) k = u8 r k.
Proof.
  intros Hr Hk. destruct (well_formed_spec r Hr) as [_ Hb].
  pose proof (Hb (4 * (k / 4))%nat ltac:(div_lia)) as H0.
  pose proof (Hb (4 * (k / 4) + 1)%nat ltac:(div_lia)) as H1.
  pose proof (Hb (4 * (k / 4) + 2)%nat ltac:(div_lia)) as H2.
  pose proof (Hb (4 * (k / 4) + 3)%nat ltac:(div_lia)) as H3.
  unfold f32_byte, f32.
  assert (k mod 4 = 0 \/ k mod 4 = 1 \/ k mod 4 = 2 \/ k mod 4 = 3)%nat
    as [Hm|[Hm|[Hm|Hm]]] by div_lia; rewrite Hm.
  - replace k with (4 * (k / 4))%nat at 5 by div_lia. div_lia.
  - replace k with (4 * (k / 4) + 1)%nat at 5 by div_lia. div_lia.
  - replace k with (4 * (k / 4) + 2)%nat at 5 by div_lia. div_lia.
  - replace k with (4 * (k / 4) + 3)%nat at 5 by div_lia. div_lia.
Qed.

(** two registers with the same eight 32-bit lanes are the same register *)
Lemma f32_ext (r r' : simd256bit) :
  well_formed r = true -> well_formed r' = true ->
  (forall j, (j < 8)%nat -> f32 r j = f32 r' j) -> r = r'.
Proof.
  intros Hr Hr' Hf.
  destruct (well_formed_spec r Hr) as [Hl _].
  destruct (well_formed_spec r' Hr') as [Hl' _].
  apply simd256bit_ext; [exact Hl|exact Hl'|]. intros k Hk.
  rewrite <- (f32_byte_f32 r k Hr Hk), <- (f32_byte_f32 r' k Hr' Hk).
  rewrite Hf by div_lia. reflexivity.
Qed.

(** X22: [hadd] adds the pairs of neighbouring lanes of [a] and of [b] within
    each half of the register: the result is
    [{a0+a1, a2+a3, b0+b1, b2+b3, a4+a5, a6+a7, b4+b5, b6+b7}], for any
    addition of [float] that returns a [float]; lanes 0..3 of the result
    depend on lanes 0..3 of the operands only, and lanes 4..7 on lanes
    4..7 only. *)
Theorem hadd_lanes (float_add : Z -> Z -> Z) (a b : simd8float32) :
  (forall x y, 0 <= float_add x y < 2 ^ 32) ->
  map (f32 (hadd indeterminate float_add a b)) (seq 0 8)
    = [float_add (f32 a 0) (f32 a 1); float_add (f32 a 2) (f32 a 3);
       float_add (f32 b 0) (f32 b 1); float_add (f32 b 2) (f32 b 3);
       float_add (f32 a 4) (f32 a 5); float_add (f32 a 6) (f32 a 7);
       float_add (f32 b 4) (f32 b 5); float_add (f32 b 6) (f32 b 7)] /\
  (forall a' b' : simd8float32,
    (forall j, (j < 4)%nat -> f32 a j = f32 a' j /\ f32 b j = f32 b' j) ->
    forall j, (j < 4)%nat ->
      f32 (hadd indeterminate float_add a b) j
        = f32 (hadd indeterminate float_add a' b') j) /\
  (forall a' b' : simd8float32,
    (forall j, (4 <= j < 8)%nat -> f32 a j = f32 a' j /\ f32 b j = f32 b' j) ->
    forall j, (4 <= j < 8)%nat ->
      f32 (hadd indeterminate float_add a b) j
        = f32 (hadd indeterminate float_add a' b') j).
Proof.
  intros Hf.
  assert (forall a b : simd8float32, forall j, (j < 8)%nat ->
            f32 (hadd indeterminate float_add a b) j
            = nth j [float_add (f32 a 0) (f32 a 1);
                     float_add (f32 a 2) (f32 a 3);
                     float_add (f32 b 0) (f32 b 1);
                     float_add (f32 b 2) (f32 b 3);
                     float_add (f32 a 4) (f32 a 5);
                     float_add (f32 a 6) (f32 a 7);
                     float_add (f32 b 4) (f32 b 5);
                     float_add (f32 b 6) (f32 b 7)] 0) as Hh.
  { intros x y j Hj.
    destruct (unpack_bytes indeterminate
                (float_add (f32 x 0) (f32 x 1)) (float_add (f32 x 2) (f32 x 3))
                (float_add (f32 y 0) (f32 y 1)) (float_add (f32 y 2) (f32 y 3))
                (float_add (f32 x 4) (f32 x 5)) (float_add (f32 x 6) (f32 x 7))
                (float_add (f32 y 4) (f32 y 5)) (float_add (f32 y 6) (f32 y 7))
                indeterminate_size) as [_ Hn].
    apply Hn; [exact Hj|].
    do 8 (destruct j as [|j]; [apply Hf|]). lia. }
  split; [|split].
  - cbn [map seq]. rewrite !Hh by lia. reflexivity.
  - intros a' b' He j Hj. rewrite !Hh by lia.
    destruct (He 0%nat ltac:(lia)) as [-> ->].
    destruct (He 1%nat ltac:(lia)) as [-> ->].
    destruct (He 2%nat ltac:(lia)) as [-> ->].
    destruct (He 3%nat ltac:(lia)) as [-> ->].
    do 4 (destruct j as [|j]; [reflexivity|]). lia.
  - intros a' b' He j Hj. rewrite !Hh by lia.
    destruct (He 4%nat ltac:(lia)) as [-> ->].
    destruct (He 5%nat ltac:(lia)) as [-> ->].
    destruct (He 6%nat ltac:(lia)) as [-> ->].
    destruct (He 7%nat ltac:(lia)) as [-> ->].
    do 4 (destruct j as [|j]; [lia|]).
    do 4 (destruct j as [|j]; [reflexivity|]). lia.
Qed.

(** X23: [unpacklo] and [unpackhi] together lose nothing: the two results
    determine both operands. *)
Theorem unpack_injective (a b a' b' : simd8float32) :
  well_formed a = true -> well_formed b = true ->
  well_formed a' = true -> well_formed b' = true ->
  unpacklo a b = unpacklo a' b' -> unpackhi a b = unpackhi a' b' ->
  a = a' /\ b = b'.
Proof.
  intros Ha Hb Ha' Hb' Hlo Hhi.
  assert (forall x y : simd8float32,
            well_formed x = true -> well_formed y = true ->
            map (f32 (unpacklo x y)) (seq 0 8)
              = [f32 x 0; f32 y 0; f32 x 1; f32 y 1;
                 f32 x 4; f32 y 4; f32 x 5; f32 y 5] /\
            map (f32 (unpackhi x y)) (seq 0 8)
              = [f32 x 2; f32 y 2; f32 x 3; f32 y 3;
                 f32 x 6; f32 y 6; f32 x 7; f32 y 7]) as Hu.
  { intros x y Hx Hy.
    destruct (unpack_bytes indeterminate (f32 x 0) (f32 y 0) (f32 x 1) (f32 y 1)
                (f32 x 4) (f32 y 4) (f32 x 5) (f32 y 5) indeterminate_size)
      as [_ Hl].
    destruct (unpack_bytes indeterminate (f32 x 2) (f32 y 2) (f32 x 3) (f32 y 3)
                (f32 x 6) (f32 y 6) (f32 x 7) (f32 y 7) indeterminate_size)
      as [_ Hh].
    fold (unpacklo x y) in Hl. fold (unpackhi x y) in Hh.
    split; cbn [map seq];
      rewrite ?Hl, ?Hh by (cbn [nth]; first [lia|apply f32_bounds; assumption || lia]);
      reflexivity. }
  destruct (Hu a b Ha Hb) as [Hl1 Hh1]. destruct (Hu a' b' Ha' Hb') as [Hl2 Hh2].
  rewrite Hlo, Hl2 in Hl1. rewrite Hhi, Hh2 in Hh1.
  injection Hl1 as E0 F0 E1 F1 E4 F4 E5 F5.
  injection Hh1 as E2 F2 E3 F3 E6 F6 E7 F7.
  split; apply f32_ext; try assumption; intros j Hj;
    do 8 (destruct j as [|j]; [congruence|]); lia.
Qed.

End Registers.

(** ** simd256bit: the binary dump *)

Section Dump.

(** an uninitialised [char bits[257]] holds 257 characters, of any value *)
Hypothesis indeterminate_chars_size : length indeterminate_chars = 257%nat.

(** a loop that stores element [i] at iteration [i] builds the array from
    its start *)
Lemma for_loop_insert (g : nat -> Z) (n : nat) (c : list Z) :
  (n <= length c)%nat ->
  for_loop n (fun i bits => <[i := g i]> bits) c = map g (seq 0 n) ++ drop n c.
Proof.
  intros Hn. induction n as [|n IH].
  - rewrite drop_0. reflexivity.
  - rewrite for_loop_S, IH by lia.
    destruct (lookup_lt_is_Some_2 c n) as [x Hx]; [lia|].
    rewrite insert_app_r_alt by (rewrite length_map, length_seq; lia).
    rewrite length_map, length_seq, Nat.sub_diag, (drop_S _ _ _ Hx).
    rewrite seq_S, map_app, <- app_assoc. reflexivity.
Qed.

Lemma to_char_mod (z : Z) : to_char z mod 2 ^ 8 = z mod 2 ^ 8.
Proof. unfold to_char. destruct char_is_signed; div_lia. Qed.

Lemma testbit_to_char (z n : Z) :
  0 <= n < 8 -> Z.testbit (to_char z) n = Z.testbit z n.
Proof.
  intros Hn. rewrite <- (Z.mod_pow2_bits_low (to_char z) 8 n) by lia.
  rewrite to_char_mod. apply Z.mod_pow2_bits_low. lia.
Qed.

Lemma land_shiftr_1 (y n : Z) :
  0 <= n -> Z.land (Z.shiftr y n) 1 = Z.b2z (Z.testbit y n).
Proof.
  intros Hn. change 1 with (Z.ones 1) at 1. rewrite Z.land_ones by lia.
  change (2 ^ 1) with 2. rewrite <- Z.bit0_mod, Z.shiftr_spec by lia.
  reflexivity.
Qed.

Lemma to_char_digit (b : bool) : to_char (48 + Z.b2z b) = 48 + Z.b2z b.
Proof. unfold to_char. destruct char_is_signed, b; reflexivity. Qed.

(** the character that [bin] stores at position [i] *)
Lemma bin_char (this : simd256bit) (i : nat) :
  to_char (48 + Z.land (Z.shiftr (to_char (u8 this (i / 8)))
                                 (Z.of_nat (i mod 8))) 1)
  = 48 + Z.b2z (Z.testbit (u8 this (i / 8)) (Z.of_nat (i mod 8))).
Proof.
  rewrite land_shiftr_1, testbit_to_char by div_lia. apply to_char_digit.
Qed.

Lemma std_string_app (l rest : list Z) :
  Forall (fun c => c <> 0) l ->
  std_string (l ++ 0 :: rest)
  = string_of_list_ascii (map (fun c => ascii_of_N (Z.to_N c)) l).
Proof.
  induction 1 as [|c l Hc _ IH]; simpl; [reflexivity|].
  rewrite (proj2 (Z.eqb_neq c 0) Hc), IH. reflexivity.
Qed.

Lemma length_string_of_list_ascii (l : list ascii) :
  String.length (string_of_list_ascii l) = length l.
Proof. induction l as [|c l IH]; simpl; [reflexivity|]. rewrite IH. reflexivity. Qed.

Lemma get_string_of_list_ascii (l : list ascii) (i : nat) :
  String.get i (string_of_list_ascii l) = nth_error l i.
Proof.
  revert i. induction l as [|c l IH]; intros [|i]; simpl; try reflexivity.
  apply IH.
Qed.

Lemma map_seq_const {A : Type} (f : nat -> A) (c : A) (s n : nat) :
  (forall i, (s <= i < s + n)%nat -> f i = c) -> map f (seq s n) = repeat c n.
Proof.
  revert s. induction n as [|n IH]; intros s Hf; simpl; [reflexivity|].
  rewrite Hf, IH by (intros; try apply Hf; lia). reflexivity.
Qed.

(** the string that [bin] returns *)
Lemma bin_chars (this : simd256bit) :
  bin this =
    string_of_list_ascii
      (map (fun i => if Z.testbit (u8 this (i / 8)) (Z.of_nat (i mod 8))
                     then "1"%char else "0"%char) (seq 0 256)).
Proof.
  unfold bin, bin_bits. rewrite for_loop_insert by lia.
  rewrite insert_app_r_alt by (rewrite length_map, length_seq; lia).
  rewrite length_map, length_seq, Nat.sub_diag.
  destruct (drop 256 indeterminate_chars) as [|x rest] eqn:Hd.
  { apply (f_equal length) in Hd. rewrite length_drop in Hd. simpl in Hd. lia. }
  change (<[0%nat := to_char 0]> (x :: rest)) with (to_char 0 :: rest).
  replace (to_char 0) with 0 by (unfold to_char; destruct char_is_signed; reflexivity).
  rewrite std_string_app.
  - rewrite map_map. f_equal. apply map_ext. intros i. rewrite bin_char.
    destruct (Z.testbit _ _); reflexivity.
  - apply List.Forall_forall. intros c Hc. apply in_map_iff in Hc as (i & <- & _).
    rewrite bin_char. destruct (Z.testbit _ _); simpl; lia.
Qed.

(** C8: [bin()] returns a string of 256 characters, the one at position [i]
    being ['1'] iff bit [i mod 8] of byte [i div 8] is set; a register of
    zero bytes dumps to 256 ['0'], a register of [0xFF] bytes to 256 ['1']. *)
Theorem bin_spec (this : simd256bit) :
  String.length (bin this) = 256%nat /\
  (forall i, (i < 256)%nat ->
    String.get i (bin this)
      = Some (if Z.testbit (u8 this (i / 8)) (Z.of_nat (i mod 8))
              then "1"%char else "0"%char)) /\
  ((forall k, (k < 32)%nat -> u8 this k = 0) ->
   bin this = string_of_list_ascii (repeat "0"%char 256)) /\
  ((forall k, (k < 32)%nat -> u8 this k = 0xFF) ->
   bin this = string_of_list_ascii (repeat "1"%char 256)).
Proof.
  rewrite bin_chars. split; [|split; [|split]].
  - rewrite length_string_of_list_ascii, length_map, length_seq. reflexivity.
  - intros i Hi. rewrite get_string_of_list_ascii.
    rewrite (nth_error_map _ i (seq 0 256)).
    rewrite (nth_error_nth' _ 0%nat) by (rewrite length_seq; exact Hi).
    rewrite seq_nth by exact Hi. reflexivity.
  - intros H0. f_equal. apply map_seq_const. intros i Hi.
    rewrite H0 by div_lia. rewrite Z.bits_0. reflexivity.
  - intros H1. f_equal. apply map_seq_const. intros i Hi.
    rewrite H1 by div_lia. change 0xFF with (Z.ones 8).
    rewrite Z.testbit_ones_nonneg by div_lia.
    rewrite (proj2 (Z.ltb_lt _ _)) by div_lia. reflexivity.
Qed.

(** X24: [clear] zeroes the 32 bytes whatever the register held: every lane of
    every width reads 0, and the binary dump is 256 ['0']. *)
Theorem clear_zero (r : simd256bit) :
  length r = 32%nat ->
  clear r = repeat 0 32 /\
  (forall j, (j < 32)%nat -> u8 (clear r) j = 0) /\
  (forall j, (j < 16)%nat -> u16 (clear r) j = 0) /\
  (forall j, (j < 8)%nat -> u32 (clear r) j = 0) /\
  bin (clear r) = string_of_list_ascii (repeat "0"%char 256).
Proof.
  intros Hr.
  destruct (for_loop_set_u8 (fun _ => 0) 32 r ltac:(lia)) as [Hl Hk].
  fold (clear r) in Hl, Hk.
  assert (forall j, (j < 32)%nat -> u8 (clear r) j = 0) as Hz.
  { intros j Hj. rewrite Hk, (proj2 (Nat.ltb_lt _ _) Hj). reflexivity. }
  split; [|split; [exact Hz|split; [|split]]].
  - apply simd256bit_ext; [lia|reflexivity|]. intros k Hk32.
    rewrite Hz by exact Hk32.
    do 32 (destruct k as [|k]; [reflexivity|]). lia.
  - intros j Hj. unfold u16. rewrite !Hz by lia. reflexivity.
  - intros j Hj. unfold u32. rewrite !Hz by lia. reflexivity.
  - rewrite bin_chars. f_equal. apply map_seq_const. intros i Hi.
    rewrite Hz by div_lia. rewrite Z.bits_0. reflexivity.
Qed.

(** X25: the binary dump tells the registers apart: two registers with the same
    dump are the same register, and bit [b] of byte [k] can be read off the
    dump at position [8 * k + b]. *)
Theorem bin_injective (r r' : simd256bit) :
  well_formed r = true -> well_formed r' = true ->
  (forall k b, (k < 32)%nat -> (b < 8)%nat ->
    Z.testbit (u8 r k) (Z.of_nat b)
      = match String.get (8 * k + b) (bin r) with
        | Some c => Ascii.eqb c "1"%char
        | None => false
        end) /\
  (bin r = bin r' -> r = r').
Proof.
  intros Hr Hr'.
  assert (forall (x : simd256bit) k b, (k < 32)%nat -> (b < 8)%nat ->
            String.get (8 * k + b) (bin x)
            = Some (if Z.testbit (u8 x k) (Z.of_nat b)
                    then "1"%char else "0"%char)) as Hget.
  { intros x k b Hk Hb. rewrite bin_chars, get_string_of_list_ascii.
    rewrite (nth_error_map _ (8 * k + b) (seq 0 256)).
    rewrite (nth_error_nth' _ 0%nat) by (rewrite length_seq; lia).
    rewrite seq_nth by lia. cbn [option_map Nat.add].
    replace ((8 * k + b) / 8)%nat with k by div_lia.
    replace ((8 * k + b) mod 8)%nat with b by div_lia. reflexivity. }
  split.
  - intros k b Hk Hb. rewrite Hget by assumption.
    destruct (Z.testbit (u8 r k) (Z.of_nat b)); reflexivity.
  - intros He. destruct (well_formed_spec r Hr) as [Hl Hb].
    destruct (well_formed_spec r' Hr') as [Hl' Hb'].
    apply simd256bit_ext; [exact Hl|exact Hl'|]. intros k Hk.
    specialize (Hb k Hk). specialize (Hb' k Hk).
    rewrite <- (Z.mod_small (u8 r k) (2 ^ 8)), <- (Z.mod_small (u8 r' k) (2 ^ 8))
      by assumption.
    apply Z.bits_inj'. intros n Hn. rewrite !Z.testbit_mod_pow2 by lia.
    destruct (Z.ltb_spec n 8); [|reflexivity]. simpl.
    pose proof (Hget r k (Z.to_nat n) Hk ltac:(lia)) as G.
    pose proof (Hget r' k (Z.to_nat n) Hk ltac:(lia)) as G'.
    rewrite He, G' in G. rewrite Z2Nat.id in G by lia.
    destruct (Z.testbit (u8 r k) n), (Z.testbit (u8 r' k) n);
      try reflexivity; discriminate G.
Qed.

End Dump.

End Emulation.

(** * The properties on concrete registers *)

(** the register [R = 0, 1, ..., 15, 100, 101, ..., 115] is looked up with
    indices of which the second has its bit 7 set *)
Lemma lookup_2_lanes_spec_witness :
  let junk := repeat 0xAA 32 in
  let R := [0; 1; 2; 3; 4; 5; 6; 7; 8; 9; 10; 11; 12; 13; 14; 15;
            100; 101; 102; 103; 104; 105; 106; 107; 108; 109; 110; 111;
            112; 113; 114; 115] in
  let idx := [0; 0x80; 2; 3; 4; 5; 6; 7; 8; 9; 10; 11; 12; 13; 14; 15;
              0; 1; 2; 3; 4; 5; 6; 7; 8; 9; 10; 11; 12; 13; 14; 0x1F] in
  length junk = 32%nat /\
  u8 (lookup_2_lanes junk R idx) 0 = 0 /\
  u8 (lookup_2_lanes junk R idx) 1 = 0 /\
  u8 (lookup_2_lanes junk R idx) 2 = 2 /\
  u8 (lookup_2_lanes junk R idx) 16 = 100 /\
  u8 (lookup_2_lanes junk R idx) 31 = 115.
Proof.
  intros junk R idx.
  destruct (lookup_2_lanes_spec junk eq_refl R idx) as (_ & Hb & _).
  split; [reflexivity|].
  split; [destruct (Hb 0%nat ltac:(lia)) as [_ ->]; reflexivity|].
  split; [destruct (Hb 1%nat ltac:(lia)) as [_ ->]; reflexivity|].
  split; [destruct (Hb 2%nat ltac:(lia)) as [_ ->]; reflexivity|].
  split; [destruct (Hb 16%nat ltac:(lia)) as [_ ->]; reflexivity|].
  destruct (Hb 31%nat ltac:(lia)) as [_ ->]. reflexivity.
Defined.

(** lanes [0 .. 15] against the threshold 5 *)
Lemma ge_mask_spec_witness :
  let a := simd16uint16_of_ptr [0; 1; 2; 3; 4; 5; 6; 7; 8; 9; 10; 11; 12;
                                13; 14; 15] in
  let thresh := simd16uint16_of_ptr [5; 5; 5; 5; 5; 5; 5; 5; 5; 5; 5; 5; 5;
                                     5; 5; 5] in
  Z.testbit (ge_mask a thresh) (Z.of_nat (2 * 4)) = false /\
  Z.testbit (ge_mask a thresh) (Z.of_nat (2 * 4 + 1)) = false /\
  Z.testbit (ge_mask a thresh) (Z.of_nat (2 * 5)) = true /\
  Z.testbit (ge_mask a thresh) (Z.of_nat (2 * 5 + 1)) = true /\
  ge_mask a a = 0xFFFFFFFF.
Proof.
  intros a thresh. destruct (ge_mask_spec a thresh) as (_ & Hb & _).
  destruct (Hb 4%nat ltac:(lia)) as [H40 H41].
  destruct (Hb 5%nat ltac:(lia)) as [H50 H51].
  rewrite H40, H41, H50, H51. do 4 (split; [reflexivity|]).
  apply (ge_mask_spec a a).
Defined.

Lemma cmp_ge32_cmp_le32_spec_witness :
  let junk := repeat 0xAA 32 in
  let d0 := simd16uint16_of_ptr [0; 1; 2; 3; 4; 5; 6; 7; 8; 9; 10; 11; 12;
                                 13; 14; 15] in
  let d1 := simd16uint16_of_ptr [100; 101; 102; 103; 104; 105; 106; 107;
                                 108; 109; 110; 111; 112; 113; 114; 115] in
  let thr := simd16uint16_of_int junk 5 in
  length junk = 32%nat /\
  Z.testbit (cmp_ge32 d0 d1 thr) (Z.of_nat 4) = false /\
  Z.testbit (cmp_ge32 d0 d1 thr) (Z.of_nat 5) = true /\
  Z.testbit (cmp_ge32 d0 d1 thr) (Z.of_nat (15 + 16)) = true /\
  Z.testbit (cmp_le32 d0 d1 thr) (Z.of_nat 5) = true /\
  Z.testbit (cmp_le32 d0 d1 thr) (Z.of_nat 6) = false /\
  Z.testbit (cmp_le32 d0 d1 thr) (Z.of_nat (0 + 16)) = false.
Proof.
  intros junk d0 d1 thr.
  destruct (cmp_ge32_cmp_le32_spec junk eq_refl d0 d1 thr)
    as (_ & _ & Hex).
  destruct (cmp_ge32_cmp_le32_spec junk eq_refl d0 d1 thr)
    as (_ & (_ & Hle) & _).
  cbv zeta in Hex. fold junk d0 d1 thr in Hex.
  split; [reflexivity|].
  split; [destruct (Hex 4%nat ltac:(lia)) as [-> _]; reflexivity|].
  split; [destruct (Hex 5%nat ltac:(lia)) as [-> _]; reflexivity|].
  split; [destruct (Hex 15%nat ltac:(lia)) as [_ ->]; reflexivity|].
  split; [destruct (Hle 5%nat ltac:(lia)) as [-> _]; reflexivity|].
  split; [destruct (Hle 6%nat ltac:(lia)) as [-> _]; reflexivity|].
  destruct (Hle 0%nat ltac:(lia)) as [_ ->]. reflexivity.
Defined.

Lemma le_gt_mask_all_gt_spec_witness :
  let a := simd16uint16_of_ptr [9; 9; 9; 9; 9; 9; 9; 9; 9; 9; 9; 9; 9; 9;
                                9; 9] in
  let b := simd16uint16_of_ptr [0; 1; 2; 3; 4; 5; 6; 7; 8; 9; 8; 7; 6; 5;
                                4; 3] in
  Z.testbit (gt_mask a b) 18 = negb (Z.testbit (le_mask a b) 18) /\
  all_gt a a = false.
Proof.
  intros a b. destruct (le_gt_mask_all_gt_spec a b) as (_ & (_ & Hc) & _).
  split; [apply Hc; lia|]. apply (le_gt_mask_all_gt_spec a a).
Defined.

(** the sums of lanes 0 and 1 wrap around *)
Lemma add_sub_cancel_witness :
  let junk := repeat 0xAA 32 in
  let a := simd16uint16_of_ptr [65535; 1; 2; 3; 4; 5; 6; 7; 8; 9; 10; 11;
                                12; 13; 14; 15] in
  let b := simd16uint16_of_ptr [1; 65535; 40000; 3; 4; 5; 6; 7; 8; 9; 10;
                                11; 12; 13; 14; 15] in
  length junk = 32%nat /\ well_formed a = true /\
  simd16uint16_sub junk (simd16uint16_add junk a b) b = a.
Proof.
  intros junk a b. split; [reflexivity|]. split; [reflexivity|].
  apply (add_sub_cancel junk eq_refl a b eq_refl).
Defined.

Lemma combine2x2_spec_witness :
  let junk := repeat 0xAA 32 in
  length junk = 32%nat /\
  combine2x2 junk (simd16uint16_of_int junk 1) (simd16uint16_of_int junk 2)
    = simd16uint16_of_ptr [2; 2; 2; 2; 2; 2; 2; 2; 4; 4; 4; 4; 4; 4; 4; 4].
Proof.
  intros junk. split; [reflexivity|].
  apply (combine2x2_spec junk eq_refl [] []).
Defined.

(** the lanes of [a] and [b] are told apart by their first byte *)
Lemma unpacklo_unpackhi_spec_witness :
  let junk := repeat 0xAA 32 in
  let a := [0; 0; 128; 63; 1; 0; 128; 63; 2; 0; 128; 63; 3; 0; 128; 63;
            4; 0; 128; 63; 5; 0; 128; 63; 6; 0; 128; 63; 7; 0; 128; 63] in
  let b := [10; 0; 192; 127; 11; 0; 192; 127; 12; 0; 192; 127;
            13; 0; 192; 127; 14; 0; 192; 127; 15; 0; 192; 127;
            16; 0; 192; 127; 17; 0; 192; 127] in
  length junk = 32%nat /\ well_formed a = true /\ well_formed b = true /\
  map (f32 (unpacklo junk a b)) (seq 0 8)
    = [f32 a 0; f32 b 0; f32 a 1; f32 b 1; f32 a 4; f32 b 4; f32 a 5; f32 b 5]
  /\
  map (f32 (unpackhi junk a b)) (seq 0 8)
    = [f32 a 2; f32 b 2; f32 a 3; f32 b 3; f32 a 6; f32 b 6; f32 a 7; f32 b 7].
Proof.
  intros junk a b. do 3 (split; [reflexivity|]).
  destruct (unpacklo_unpackhi_spec junk eq_refl a b eq_refl eq_refl)
    as [[_ Hlo] [_ Hhi]].
  split; [exact Hlo|exact Hhi].
Defined.

Lemma bin_spec_witness :
  let junk := repeat 0x55 257 in
  let r := [1; 0x80; 0; 0; 0; 0; 0; 0; 0; 0; 0; 0; 0; 0; 0; 0;
            0; 0; 0; 0; 0; 0; 0; 0; 0; 0; 0; 0; 0; 0; 0; 0xFF] in
  length junk = 257%nat /\
  String.length (bin true junk r) = 256%nat /\
  String.get 0 (bin true junk r) = Some "1"%char /\
  String.get 1 (bin true junk r) = Some "0"%char /\
  String.get 15 (bin true junk r) = Some "1"%char /\
  String.get 255 (bin false junk r) = Some "1"%char.
Proof.
  intros junk r. split; [reflexivity|].
  destruct (bin_spec true junk eq_refl r) as (Hl & Hg & _).
  destruct (bin_spec false junk eq_refl r) as (_ & Hg' & _).
  split; [exact Hl|].
  split; [rewrite (Hg 0%nat) by lia; reflexivity|].
  split; [rewrite (Hg 1%nat) by lia; reflexivity|].
  split; [rewrite (Hg 15%nat) by lia; reflexivity|].
  rewrite (Hg' 255%nat) by lia. reflexivity.
Defined.

Lemma accu_min_max_spec_witness :
  let junk := repeat 0xAA 32 in
  let a := simd16uint16_of_ptr [0; 10; 2; 30; 4; 50; 6; 70; 8; 90; 10; 110;
                                12; 130; 14; 65535] in
  let b := simd16uint16_of_ptr [7; 7; 7; 7; 7; 7; 7; 7; 7; 7; 7; 7; 7; 7;
                                7; 7] in
  length junk = 32%nat /\ well_formed a = true /\
  accu_min a b = (min junk a b, b) /\ accu_max a b = (max junk a b, b).
Proof.
  intros junk a b. split; [reflexivity|]. split; [reflexivity|].
  apply (accu_min_max_spec junk eq_refl a b eq_refl).
Defined.

(** byte 0 of [a] overflows without a carry into byte 1 *)
Lemma simd32uint8_add_simd16uint16_spec_witness :
  let junk := repeat 0xAA 32 in
  let a := repeat 0xFF 32 in
  let b := simd16uint16_of_ptr [1; 1; 1; 1; 1; 1; 1; 1; 1; 1; 1; 1; 1; 1;
                                1; 258] in
  length junk = 32%nat /\
  u8 (simd32uint8_add_simd16uint16 junk a b) 0 = 0 /\
  u8 (simd32uint8_add_simd16uint16 junk a b) 1 = 0xFF /\
  u16 (simd32uint8_add_simd16uint16 junk a b) 15 = 1 /\
  simd32uint8_add_simd16uint16 junk a b
    = simd32uint8_add junk a (simd32uint8_of_simd256bit b).
Proof.
  intros junk a b. split; [reflexivity|].
  destruct (simd32uint8_add_simd16uint16_spec junk eq_refl a b)
    as (_ & Hk & _ & He).
  split; [rewrite Hk by lia; reflexivity|].
  split; [rewrite Hk by lia; reflexivity|].
  split; [unfold u16; rewrite !Hk by lia; reflexivity|exact He].
Defined.

(** * The further properties on concrete registers *)

Lemma storeu_loadu_witness :
  let this := seq_bytes in
  let buf := repeat 9 40 in
  length this = 32%nat /\ length (repeat 0 32) = 32%nat /\
  (32 <= length buf)%nat /\
  loadu (repeat 0 32) (storeu this buf) = this /\
  storeu this buf !!! 39%nat = 9.
Proof.
  intros this buf.
  assert (32 <= length buf)%nat as Hb by (simpl; lia).
  destruct (storeu_loadu this (repeat 0 32) buf eq_refl eq_refl Hb)
    as (Hrt & _ & _ & Hframe & _).
  split; [reflexivity|]. split; [reflexivity|]. split; [exact Hb|].
  split; [exact Hrt|]. rewrite Hframe by lia. reflexivity.
Defined.

Lemma loadu_storeu_witness :
  let buf := seq_bytes ++ [77; 78] in
  length (repeat 0 32) = 32%nat /\ (32 <= length buf)%nat /\
  loadu (repeat 0 32) buf = seq_bytes /\
  storeu (loadu (repeat 0 32) buf) buf = buf.
Proof.
  intros buf.
  assert (32 <= length buf)%nat as Hb by (simpl; lia).
  destruct (loadu_storeu (repeat 0 32) buf eq_refl Hb) as (Hc & _ & _ & Hs).
  split; [reflexivity|]. split; [exact Hb|]. split; [|exact Hs].
  rewrite Hc. reflexivity.
Defined.

Lemma ge_le_mask_cover_witness :
  let a := simd16uint16_of_ptr [0; 1; 2; 3; 4; 5; 6; 7; 8; 9; 10; 11; 12;
                                13; 14; 15] in
  let b := simd16uint16_of_ptr [5; 5; 5; 5; 5; 5; 5; 5; 5; 5; 5; 5; 5; 5;
                                5; 5] in
  Z.lor (ge_mask a b) (le_mask a b) = 0xFFFFFFFF /\
  Z.testbit (Z.land (ge_mask a b) (le_mask a b)) (Z.of_nat (2 * 5)) = true /\
  Z.testbit (Z.land (ge_mask a b) (le_mask a b)) (Z.of_nat (2 * 6)) = false.
Proof.
  intros a b. destruct (ge_le_mask_cover a b) as (Hc & _ & He).
  split; [exact Hc|].
  split; [destruct (He 5%nat ltac:(lia)) as [-> _]; reflexivity|].
  destruct (He 6%nat ltac:(lia)) as [-> _]. reflexivity.
Defined.

Lemma all_gt_order_witness :
  let a := simd16uint16_of_ptr (repeat 9 16) in
  let b := simd16uint16_of_ptr (repeat 5 16) in
  let c := simd16uint16_of_ptr (repeat 2 16) in
  all_gt a b = true /\ all_gt b c = true /\
  all_gt b a = false /\ all_gt a c = true /\ gt_mask a b = 0xFFFFFFFF.
Proof.
  intros a b c.
  assert (all_gt a b = true) as Hab by reflexivity.
  assert (all_gt b c = true) as Hbc by reflexivity.
  destruct (all_gt_order a b c) as (Hm & Has & Htr & _).
  split; [exact Hab|]. split; [exact Hbc|]. split; [exact (Has Hab)|].
  split; [exact (Htr Hab Hbc)|]. apply Hm, Hab.
Defined.

Lemma cmp32_ge_mask_witness :
  let d0 := simd16uint16_of_ptr [0; 1; 2; 3; 4; 5; 6; 7; 8; 9; 10; 11; 12;
                                 13; 14; 15] in
  let d1 := simd16uint16_of_ptr [100; 101; 102; 103; 104; 105; 106; 107;
                                 108; 109; 110; 111; 112; 113; 114; 115] in
  let thr := simd16uint16_of_ptr (repeat 5 16) in
  Z.testbit (cmp_ge32 d0 d1 thr) (Z.of_nat 3)
    = Z.testbit (ge_mask d0 thr) (Z.of_nat (2 * 3)) /\
  Z.lor (cmp_ge32 d0 d1 thr) (cmp_le32 d0 d1 thr) = 0xFFFFFFFF.
Proof.
  intros d0 d1 thr. destruct (cmp32_ge_mask d0 d1 thr) as [Hb Hc].
  split; [apply (Hb 3%nat); lia|exact Hc].
Defined.

Lemma simd16uint16_add_monoid_witness :
  let junk := repeat 0xAA 32 in
  let a := simd16uint16_of_ptr [65535; 1; 2; 3; 4; 5; 6; 7; 8; 9; 10; 11;
                                12; 13; 14; 15] in
  let b := simd16uint16_of_ptr (repeat 40000 16) in
  let c := simd16uint16_of_ptr (repeat 30000 16) in
  length junk = 32%nat /\ well_formed a = true /\
  simd16uint16_add junk (simd16uint16_add junk a b) c
    = simd16uint16_add junk a (simd16uint16_add junk b c) /\
  simd16uint16_add junk a (simd16uint16_of_int junk 0) = a.
Proof.
  intros junk a b c.
  destruct (simd16uint16_add_monoid junk eq_refl a b c) as (_ & Has & Hz).
  split; [reflexivity|]. split; [reflexivity|]. split; [exact Has|].
  apply (Hz eq_refl).
Defined.

Lemma simd16uint16_sub_complement_witness :
  let junk := repeat 0xAA 32 in
  let a := simd16uint16_of_ptr [0; 1; 2; 3; 4; 5; 6; 7; 8; 9; 10; 11; 12;
                                13; 14; 15] in
  let b := simd16uint16_of_ptr (repeat 5 16) in
  length junk = 32%nat /\ well_formed a = true /\
  simd16uint16_sub junk a b
    = simd16uint16_add junk a
        (simd16uint16_add junk (simd16uint16_not junk b)
                               (simd16uint16_of_int junk 1)) /\
  simd16uint16_add junk (simd16uint16_sub junk a b) b = a.
Proof.
  intros junk a b.
  destruct (simd16uint16_sub_complement junk eq_refl a b) as (Hc & _ & Hr).
  split; [reflexivity|]. split; [reflexivity|]. split; [exact Hc|].
  apply (Hr eq_refl).
Defined.

Lemma simd16uint16_not_involutive_witness :
  let junk := repeat 0xAA 32 in
  let a := simd16uint16_of_ptr [0; 1; 2; 3; 4; 5; 6; 7; 8; 9; 10; 11; 12;
                                13; 14; 65535] in
  length junk = 32%nat /\ well_formed a = true /\
  simd16uint16_not junk (simd16uint16_not junk a) = a.
Proof.
  intros junk a. split; [reflexivity|]. split; [reflexivity|].
  apply (simd16uint16_not_involutive junk eq_refl a eq_refl).
Defined.

Lemma simd16uint16_and_or_not_witness :
  let junk := repeat 0xAA 32 in
  let a := simd16uint16_of_ptr (repeat 0x0FF0 16) in
  let b := simd16uint16_of_ptr (repeat 0x3C3C 16) in
  length junk = 32%nat /\ well_formed a = true /\
  simd16uint16_not junk (simd16uint16_and junk a b)
    = simd16uint16_or junk (simd16uint16_not junk a) (simd16uint16_not junk b)
  /\ simd16uint16_and junk a a = a.
Proof.
  intros junk a b.
  destruct (simd16uint16_and_or_not junk eq_refl a b)
    as (_ & _ & _ & Hdm & _ & Hid).
  split; [reflexivity|]. split; [reflexivity|]. split; [exact Hdm|].
  apply (Hid eq_refl).
Defined.

Lemma simd16uint16_eq_mask_witness :
  let junk := repeat 0xAA 32 in
  let a := simd16uint16_of_ptr [0; 1; 2; 3; 4; 5; 6; 7; 8; 9; 10; 11; 12;
                                13; 14; 15] in
  let b := simd16uint16_of_ptr [0; 1; 2; 3; 4; 5; 6; 7; 8; 9; 10; 11; 12;
                                13; 14; 271] in
  length junk = 32%nat /\ well_formed a = true /\ well_formed b = true /\
  u16 (simd16uint16_eq junk a b) 14 = 0xFFFF /\
  u16 (simd16uint16_eq junk a b) 15 = 0.
Proof.
  intros junk a b.
  destruct (simd16uint16_eq_mask junk eq_refl a b eq_refl eq_refl)
    as (Hl & _).
  do 3 (split; [reflexivity|]).
  split; [rewrite (Hl 14%nat) by lia; reflexivity|].
  rewrite (Hl 15%nat) by lia. reflexivity.
Defined.

Lemma simd16uint16_shift_lanes_witness :
  let junk := repeat 0xAA 32 in
  let a := simd16uint16_of_ptr (repeat 0xABCD 16) in
  length junk = 32%nat /\ well_formed a = true /\ (4 < 16)%nat /\
  u16 (simd16uint16_shr junk a 4) 0 = 0x0ABC /\
  u16 (simd16uint16_shl junk a 4) 0 = 0xBCD0 /\
  u16 (simd16uint16_shl junk (simd16uint16_shr junk a 4) 4) 0 = 0xABC0 /\
  u16 (simd16uint16_shr junk (simd16uint16_shl junk a 4) 4) 0 = 0x0BCD.
Proof.
  intros junk a.
  destruct (simd16uint16_shift_lanes junk eq_refl a 4 eq_refl ltac:(lia))
    as (Hl & _).
  destruct (Hl 0%nat ltac:(lia)) as (-> & -> & -> & ->).
  split; [reflexivity|]. split; [reflexivity|]. split; [lia|].
  repeat (split; [reflexivity|]). reflexivity.
Defined.

Lemma simd16uint16_shift_compose_witness :
  let junk := repeat 0xAA 32 in
  let a := simd16uint16_of_ptr (repeat 0xABCD 16) in
  length junk = 32%nat /\ well_formed a = true /\ (3 + 5 < 16)%nat /\
  simd16uint16_shr junk (simd16uint16_shr junk a 3) 5
    = simd16uint16_shr junk a (3 + 5) /\
  simd16uint16_shl junk (simd16uint16_shl junk a 3) 5
    = simd16uint16_shl junk a (3 + 5).
Proof.
  intros junk a. split; [reflexivity|]. split; [reflexivity|]. split; [lia|].
  apply (simd16uint16_shift_compose junk eq_refl a 3 5 eq_refl). lia.
Defined.

Lemma min_max_lattice_witness :
  let junk := repeat 0xAA 32 in
  let a := simd16uint16_of_ptr [0; 10; 2; 30; 4; 50; 6; 70; 8; 90; 10; 110;
                                12; 130; 14; 65535] in
  let b := simd16uint16_of_ptr (repeat 7 16) in
  length junk = 32%nat /\ well_formed a = true /\ well_formed b = true /\
  min junk a (max junk a b) = a /\
  simd16uint16_add junk (min junk a b) (max junk a b)
    = simd16uint16_add junk a b.
Proof.
  intros junk a b.
  destruct (min_max_lattice junk eq_refl a b eq_refl eq_refl)
    as (_ & _ & _ & _ & _ & Hab & _ & Hs).
  do 3 (split; [reflexivity|]). split; [exact Hab|exact Hs].
Defined.

Lemma min_max_bounds_witness :
  let junk := repeat 0xAA 32 in
  let a := simd16uint16_of_ptr [0; 10; 2; 30; 4; 50; 6; 70; 8; 90; 10; 110;
                                12; 130; 14; 65535] in
  let b := simd16uint16_of_ptr (repeat 7 16) in
  length junk = 32%nat /\ well_formed a = true /\ well_formed b = true /\
  ge_mask a (min junk a b) = 0xFFFFFFFF /\
  ge_mask (max junk a b) a = 0xFFFFFFFF.
Proof.
  intros junk a b.
  destruct (min_max_bounds junk eq_refl a b eq_refl eq_refl)
    as (Hlo & _ & Hhi & _).
  do 3 (split; [reflexivity|]). split; [exact Hlo|exact Hhi].
Defined.

Lemma accu_min_max_fold_witness :
  let junk := repeat 0xAA 32 in
  let a := simd16uint16_of_ptr (repeat 1000 16) in
  let b := simd16uint16_of_ptr [0; 10; 2; 30; 4; 50; 6; 70; 8; 90; 10; 110;
                                12; 130; 14; 65535] in
  let c := simd16uint16_of_ptr (repeat 7 16) in
  length junk = 32%nat /\ well_formed a = true /\ well_formed b = true /\
  well_formed c = true /\
  fst (accu_min (fst (accu_min a b)) c) = fst (accu_min a (min junk b c)) /\
  fst (accu_min (fst (accu_min a b)) c) = fst (accu_min (fst (accu_min a c)) b).
Proof.
  intros junk a b c.
  destruct (accu_min_max_fold junk eq_refl a b c eq_refl eq_refl eq_refl)
    as (H1 & H2 & _).
  do 4 (split; [reflexivity|]). split; [exact H1|exact H2].
Defined.

Lemma combine2x2_additive_witness :
  let junk := repeat 0xAA 32 in
  let a := simd16uint16_of_ptr (repeat 60000 16) in
  let b := simd16uint16_of_ptr [0; 1; 2; 3; 4; 5; 6; 7; 8; 9; 10; 11; 12;
                                13; 14; 15] in
  length junk = 32%nat /\
  combine2x2 junk (simd16uint16_add junk a b) (simd16uint16_add junk b a)
    = simd16uint16_add junk (combine2x2 junk a b) (combine2x2 junk b a).
Proof.
  intros junk a b. split; [reflexivity|].
  apply (combine2x2_additive junk eq_refl a b b a).
Defined.

Lemma set1_views_witness :
  let junk := repeat 0xAA 32 in
  length junk = 32%nat /\ length seq_bytes = 32%nat /\
  simd16uint16_set1 (to_u16 (-1)) seq_bytes = simd16uint16_of_int junk (-1) /\
  get_scalar_0 (simd16uint16_of_int junk (-1)) = 0xFFFF /\
  simd16uint16_of_int junk (0x0101 * to_u8 0x1C3) = simd32uint8_of_int junk 0x1C3
  /\ simd8uint32_of_uint32 junk (0x01010101 * to_u8 0x1C3)
     = simd32uint8_of_int junk 0x1C3.
Proof.
  intros junk.
  destruct (set1_views junk eq_refl (-1) seq_bytes eq_refl)
    as (H16 & _ & _ & _ & Hg & _).
  destruct (set1_views junk eq_refl 0x1C3 seq_bytes eq_refl)
    as (_ & _ & _ & _ & _ & _ & _ & Hv16 & Hv32).
  split; [reflexivity|]. split; [reflexivity|]. split; [exact H16|].
  split; [rewrite Hg; reflexivity|]. split; [exact Hv16|exact Hv32].
Defined.

Lemma lookup_2_lanes_special_witness :
  let junk := repeat 0xAA 32 in
  let v := seq_bytes in
  length junk = 32%nat /\ length v = 32%nat /\ 0 <= 3 < 16 /\
  lookup_2_lanes junk v [0; 1; 2; 3; 4; 5; 6; 7; 8; 9; 10; 11; 12; 13; 14; 15;
                         0; 1; 2; 3; 4; 5; 6; 7; 8; 9; 10; 11; 12; 13; 14; 15]
    = v /\
  u8 (lookup_2_lanes junk v (simd32uint8_of_int junk 3)) 9 = 4 /\
  u8 (lookup_2_lanes junk v (simd32uint8_of_int junk 3)) (16 + 9) = 20.
Proof.
  intros junk v.
  destruct (lookup_2_lanes_special junk eq_refl v v 3 eq_refl)
    as (Hid & _ & Hb).
  destruct (Hb ltac:(lia) 9%nat ltac:(lia)) as [H9 H25].
  split; [reflexivity|]. split; [reflexivity|]. split; [lia|].
  split; [exact Hid|]. split; [rewrite H9|rewrite H25]; reflexivity.
Defined.

Lemma lookup_2_lanes_masked_witness :
  let junk := repeat 0xAA 32 in
  let v := seq_bytes in
  let idx := repeat 0xF3 16 ++ repeat 0x75 16 in
  length junk = 32%nat /\
  lookup_2_lanes junk v (simd32uint8_and junk idx (simd32uint8_of_int junk 0x8F))
    = lookup_2_lanes junk v idx /\
  u8 (lookup_2_lanes junk v
        (simd32uint8_and junk idx (simd32uint8_of_int junk 0x0F))) 0 = 4.
Proof.
  intros junk v idx.
  destruct (lookup_2_lanes_masked junk eq_refl v idx) as [Hm Hl].
  split; [reflexivity|]. split; [exact Hm|].
  destruct (Hl 0%nat ltac:(lia)) as [-> _]. reflexivity.
Defined.

Lemma lookup_2_lanes_compose_witness :
  let junk := repeat 0xAA 32 in
  let v := seq_bytes in
  let i1 := [15; 14; 13; 12; 11; 10; 9; 8; 7; 6; 5; 4; 3; 2; 1; 0x80;
             0; 0; 1; 1; 2; 2; 3; 3; 4; 4; 5; 5; 6; 6; 7; 7] in
  let i2 := [1; 3; 5; 7; 9; 11; 13; 15; 0; 2; 4; 6; 8; 10; 12; 14;
             15; 14; 13; 12; 11; 10; 9; 8; 7; 6; 5; 4; 3; 2; 1; 0] in
  length junk = 32%nat /\
  (forall k, (k < 32)%nat -> Z.testbit (u8 i2 k) 7 = false) /\
  lookup_2_lanes junk (lookup_2_lanes junk v i1) i2
    = lookup_2_lanes junk v (lookup_2_lanes junk i1 i2).
Proof.
  intros junk v i1 i2.
  assert (forall k, (k < 32)%nat -> Z.testbit (u8 i2 k) 7 = false) as H7.
  { intros k Hk. do 32 (destruct k as [|k]; [reflexivity|]). lia. }
  split; [reflexivity|]. split; [exact H7|].
  apply (lookup_2_lanes_compose junk eq_refl v i1 i2 H7).
Defined.

Lemma simd32uint8_add_and_witness :
  let junk := repeat 0xAA 32 in
  let a := seq_bytes in
  let b := repeat 250 32 in
  length junk = 32%nat /\ well_formed a = true /\
  simd32uint8_add junk (simd32uint8_add junk a b) b
    = simd32uint8_add junk a (simd32uint8_add junk b b) /\
  simd32uint8_and junk a (simd32uint8_of_int junk 0xFF) = a.
Proof.
  intros junk a b.
  destruct (simd32uint8_add_and junk eq_refl a b b) as (_ & Has & Hn).
  split; [reflexivity|]. split; [reflexivity|]. split; [exact Has|].
  apply (Hn eq_refl).
Defined.

(** any operation on 32-bit values will do for the lane structure *)
Lemma hadd_lanes_witness :
  let junk := repeat 0xAA 32 in
  let op := fun x y : Z => (x + y) mod 2 ^ 32 in
  let a := seq_bytes in
  let b := repeat 1 32 in
  length junk = 32%nat /\ (forall x y, 0 <= op x y < 2 ^ 32) /\
  f32 (hadd junk op a b) 2 = op (f32 b 0) (f32 b 1) /\
  f32 (hadd junk op a b) 5 = op (f32 a 6) (f32 a 7).
Proof.
  intros junk op a b.
  assert (forall x y, 0 <= op x y < 2 ^ 32) as Hop
    by (intros x y; apply Z.mod_pos_bound; lia).
  destruct (hadd_lanes junk eq_refl op a b Hop) as (Hl & _).
  split; [reflexivity|]. split; [exact Hop|].
  pose proof (f_equal (fun l => nth 2 l 0) Hl) as H2.
  pose proof (f_equal (fun l => nth 5 l 0) Hl) as H5.
  cbn [map seq nth] in H2, H5. split; [exact H2|exact H5].
Defined.

Lemma unpack_injective_witness :
  let junk := repeat 0xAA 32 in
  let a := seq_bytes in
  let b := repeat 1 32 in
  length junk = 32%nat /\ well_formed a = true /\ well_formed b = true /\
  (a = a /\ b = b).
Proof.
  intros junk a b. do 3 (split; [reflexivity|]).
  apply (unpack_injective junk eq_refl a b a b eq_refl eq_refl eq_refl eq_refl
           eq_refl eq_refl).
Defined.

Lemma clear_zero_witness :
  let junk := repeat 0x55 257 in
  length junk = 257%nat /\ length seq_bytes = 32%nat /\
  clear seq_bytes = repeat 0 32 /\
  bin true junk (clear seq_bytes) = string_of_list_ascii (repeat "0"%char 256).
Proof.
  intros junk.
  destruct (clear_zero true junk eq_refl seq_bytes eq_refl) as (Hc & _ & _ & _ & Hb).
  split; [reflexivity|]. split; [reflexivity|]. split; [exact Hc|exact Hb].
Defined.

Lemma bin_injective_witness :
  let junk := repeat 0x55 257 in
  let r := seq_bytes in
  length junk = 257%nat /\ well_formed r = true /\
  Z.testbit (u8 r 5) (Z.of_nat 2)
    = match String.get (8 * 5 + 2) (bin false junk r) with
      | Some c => Ascii.eqb c "1"%char
      | None => false
      end.
Proof.
  intros junk r. split; [reflexivity|]. split; [reflexivity|].
  destruct (bin_injective false junk eq_refl r r eq_refl eq_refl) as [Hb _].
  apply Hb; lia.
Defined.

(** * The operations evaluated *)

Example lookup_2_lanes_example :
  lookup_2_lanes (repeat 0xAA 32)
    [0; 1; 2; 3; 4; 5; 6; 7; 8; 9; 10; 11; 12; 13; 14; 15;
     100; 101; 102; 103; 104; 105; 106; 107; 108; 109; 110; 111;
     112; 113; 114; 115]
    [0; 0x80; 2; 0x13; 0xFF; 15; 0x7F; 0; 1; 1; 1; 1; 1; 1; 1; 1;
     0; 0x80; 2; 0x13; 0xFF; 15; 0x7F; 0; 1; 1; 1; 1; 1; 1; 1; 1]
  = [0; 0; 2; 3; 0; 15; 15; 0; 1; 1; 1; 1; 1; 1; 1; 1;
     100; 0; 102; 103; 0; 115; 115; 100; 101; 101; 101; 101; 101; 101; 101;
     101].
Proof. reflexivity. Qed.

Example ge_mask_example :
  ge_mask (simd16uint16_of_ptr [0; 1; 2; 3; 4; 5; 6; 7; 8; 9; 10; 11; 12;
                                13; 14; 15])
          (simd16uint16_of_int (repeat 0xAA 32) 5) = 0xFFFFFC00.
Proof. reflexivity. Qed.

Example cmp_ge32_example :
  cmp_ge32 (simd16uint16_of_ptr [0; 1; 2; 3; 4; 5; 6; 7; 8; 9; 10; 11; 12;
                                 13; 14; 15])
           (simd16uint16_of_ptr [100; 101; 102; 103; 104; 105; 106; 107;
                                 108; 109; 110; 111; 112; 113; 114; 115])
           (simd16uint16_of_int (repeat 0xAA 32) 5) = 0xFFFFFFE0.
Proof. reflexivity. Qed.

Example cmp_le32_example :
  cmp_le32 (simd16uint16_of_ptr [0; 1; 2; 3; 4; 5; 6; 7; 8; 9; 10; 11; 12;
                                 13; 14; 15])
           (simd16uint16_of_ptr [100; 101; 102; 103; 104; 105; 106; 107;
                                 108; 109; 110; 111; 112; 113; 114; 115])
           (simd16uint16_of_int (repeat 0xAA 32) 5) = 0x0000003F.
Proof. reflexivity. Qed.

Example gt_mask_example :
  gt_mask (simd16uint16_of_ptr [0; 1; 2; 3; 4; 5; 6; 7; 8; 9; 10; 11; 12;
                                13; 14; 15])
          (simd16uint16_of_int (repeat 0xAA 32) 5) = 0xFFFFF000.
Proof. reflexivity. Qed.

Example add_wraps_example :
  map (u16 (simd16uint16_add (repeat 0xAA 32)
              (simd16uint16_of_int (repeat 0xAA 32) 65535)
              (simd16uint16_of_int (repeat 0xAA 32) 3))) (seq 0 16)
  = repeat 2 16.
Proof. reflexivity. Qed.

Example bin_example :
  bin true (repeat 0x55 257) (1 :: 0x82 :: repeat 0 29 ++ [0xFF])
  = string_of_list_ascii
      (map (fun c : bool => if c then "1"%char else "0"%char)
         ([true; false; false; false; false; false; false; false;
           false; true; false; false; false; false; false; true]
          ++ repeat false 232 ++ repeat true 8)).
Proof. reflexivity. Qed.

End faiss.
